(** * The vault updater ([update_vods.ts]): model and properties

    A shallow embedding of the Deno script that logs into the vault, lists
    the user's VODs, fetches [file_info] for the entries that need it and
    writes the merged [vods.json].

    Modelling conventions.
    - JavaScript values are the type [value]; numbers are integers ([Z]):
      ids, epoch seconds and byte counts are integers, fractional doubles,
      [NaN] and [-0] as *stored* numbers are outside the model ([NaN] as the
      result of a date conversion is [None]).  The text of a number is its
      decimal numeral, which is what JavaScript prints below 1e21; larger
      magnitudes, printed in exponent form, are outside the model.
    - An object is the ordered list of its own enumerable properties, in
      the order JavaScript enumerates them (insertion order for the
      non-index keys the script creates); a property can be present with the
      value [undefined], which is what object spread copies and what
      [JSON.stringify] drops.
    - The [Map] of the merge loop is an association list in insertion order
      with SameValueZero key comparison.
    - The remote API, the clock and [Date.parse] form the [world] a run
      executes in; the cookie jar and the anti-forgery headers do not
      influence any value [main] computes and are modelled on their own.
    - [Array.prototype.sort] is modelled by a stable insertion sort.  When
      every entry has a date value the comparator is consistent and every
      stable sort returns the same arrangement ([stable_sorted_unique]);
      the theorems about the saved order are stated for that case.  With an
      entry that has no date value the comparator returns [NaN] and the
      order is left to the engine: the theorems that hold whatever the order
      use the sort as a permutation only, and the examples with undated
      entries are lists in which no entry compares as out of order with its
      right neighbour, which the engine returns as they are.
    - A run either finishes, throws, or is still looping when the fuel of the
      [while (true)] page loop is used up.  The start-up check of the three
      required settings precedes [main] and is not part of it; console output
      is left out. *)

From Stdlib Require Import List ZArith Lia Bool String Ascii Sorting.Sorted
  Permutation DecimalString.
Import ListNotations.
Local Open Scope string_scope.
Local Open Scope Z_scope.
Set Warnings "-register-all".
Arguments String.eqb : simpl never.

(* ------------------------------------------------------------------ *)
(** ** JavaScript values *)

Inductive value : Type :=
| VUndef
| VNull
| VBool (b : bool)
| VNum (n : Z)
| VStr (s : string)
| VArr (l : list value)
| VObj (o : list (string * value)).

(** [Record<string, any>]: own properties in enumeration order. *)
Definition obj : Type := list (string * value).

(** ToBoolean. *)
Definition truthy (v : value) : bool :=
  match v with
  | VUndef | VNull => false
  | VBool b => b
  | VNum n => negb (n =? 0)
  | VStr s => negb (s =? "")%string
  | VArr _ | VObj _ => true
  end.

(** [a ?? b]. *)
Definition nullish (v : value) : bool :=
  match v with VUndef | VNull => true | _ => false end.

Definition coalesce (a b : value) : value := if nullish a then b else a.

Infix "??" := coalesce (at level 45, right associativity).

(** [o[k]] on an object: the first (only) property named [k]. *)
Fixpoint get (o : obj) (k : string) : value :=
  match o with
  | [] => VUndef
  | (k', v) :: o' => if (k' =? k)%string then v else get o' k
  end.

Fixpoint has_key (o : obj) (k : string) : bool :=
  match o with
  | [] => false
  | (k', _) :: o' => (k' =? k)%string || has_key o' k
  end.

(** [o[k] = v]: overwrite in place, or append a new property. *)
Fixpoint assign (k : string) (v : value) (o : obj) : obj :=
  match o with
  | [] => [(k, v)]
  | (k', v') :: o' =>
      if (k' =? k)%string then (k', v) :: o' else (k', v') :: assign k v o'
  end.

(** [{ ...base, ...o }]: every own property of [o], also the ones whose
    value is [undefined], is assigned onto [base]. *)
Definition spread (base o : obj) : obj :=
  fold_left (fun acc kv => assign (fst kv) (snd kv) acc) o base.

(** [{ ...x }] for [x : StoredVod | undefined]. *)
Definition spread_opt (base : obj) (x : option obj) : obj :=
  match x with None => base | Some o => spread base o end.

Definition keys (o : obj) : list string := map fst o.

(** [v.k] for a value that is not null or undefined: objects give the
    property, arrays and strings have [length], everything else has no own
    property of that name. *)
Definition prop (v : value) (k : string) : value :=
  match v with
  | VObj o => get o k
  | VArr l => if (k =? "length")%string then VNum (Z.of_nat (List.length l)) else VUndef
  | VStr s => if (k =? "length")%string then VNum (Z.of_nat (String.length s)) else VUndef
  | _ => VUndef
  end.

(** [a === b] where [b] is a primitive constant. *)
Definition strict_eq_prim (a b : value) : bool :=
  match a, b with
  | VUndef, VUndef | VNull, VNull => true
  | VBool x, VBool y => Bool.eqb x y
  | VNum x, VNum y => x =? y
  | VStr x, VStr y => (x =? y)%string
  | _, _ => false
  end.

(** SameValueZero, the key comparison of [Map] and [Set].  Two objects or
    arrays are the same key only when they are the same reference; every
    key the script compares comes from a different parsed record, so such
    keys never match. *)
Definition same_value_zero (a b : value) : bool := strict_eq_prim a b.

Definition is_primitive (v : value) : bool :=
  match v with VArr _ | VObj _ => false | _ => true end.

(** ToString, as used by template literals and by [new Date(object)];
    numbers of magnitude below 1e21. *)
Definition string_of_Z (n : Z) : string := NilZero.string_of_int (Z.to_int n).

Fixpoint join_with (sep : string) (l : list string) : string :=
  match l with
  | [] => ""
  | [s] => s
  | s :: l' => s ++ sep ++ join_with sep l'
  end.

Fixpoint to_string (v : value) : string :=
  match v with
  | VUndef => "undefined"
  | VNull => "null"
  | VBool true => "true"
  | VBool false => "false"
  | VNum n => string_of_Z n
  | VStr s => s
  | VArr l =>
      join_with ","
        (map (fun x => match x with VUndef | VNull => "" | _ => to_string x end) l)
  | VObj _ => "[object Object]"
  end.

(** [JSON.stringify] followed by [JSON.parse]: properties whose value is
    [undefined] are dropped, [undefined] array elements become [null].
    The text written to disk is a deterministic, injective rendering of
    this tree, so two files are byte-identical exactly when their trees are
    equal. *)
Fixpoint jsonify (v : value) : value :=
  match v with
  | VArr l =>
      VArr (map (fun x => match x with VUndef => VNull | _ => jsonify x end) l)
  | VObj o =>
      VObj ((fix props (o : list (string * value)) : list (string * value) :=
               match o with
               | [] => []
               | (_, VUndef) :: o' => props o'
               | (k, x) :: o' => (k, jsonify x) :: props o'
               end) o)
  | _ => v
  end.

Fixpoint jsonify_obj (o : obj) : obj :=
  match o with
  | [] => []
  | (_, VUndef) :: o' => jsonify_obj o'
  | (k, x) :: o' => (k, jsonify x) :: jsonify_obj o'
  end.




(* ------------------------------------------------------------------ *)
(** ** Outcomes of effectful code *)

Inductive outcome (A : Type) : Type :=
| Done (a : A)            (* normal completion *)
| Throw (msg : string)    (* an exception: the run aborts and writes nothing *)
| Looping.                (* the page loop has not finished within the fuel *)
Arguments Done {A} a.
Arguments Throw {A} msg.
Arguments Looping {A}.

Definition bind {A B} (m : outcome A) (f : A -> outcome B) : outcome B :=
  match m with
  | Done a => f a
  | Throw msg => Throw msg
  | Looping => Looping
  end.

Notation "x <- m ;; k" := (bind m (fun x => k))
  (at level 61, m at next level, right associativity).

Fixpoint map_outcome {A B} (f : A -> outcome B) (l : list A) : outcome (list B) :=
  match l with
  | [] => Done []
  | a :: l' => b <- f a ;; bs <- map_outcome f l' ;; Done (b :: bs)
  end.

(** Reading a property of [null] or [undefined] throws a [TypeError]. *)
Definition member (v : value) (k : string) : outcome value :=
  match v with
  | VUndef | VNull => Throw "TypeError: cannot read properties of null or undefined"
  | _ => Done (prop v k)
  end.

(* ------------------------------------------------------------------ *)
(** ** Configuration, remote API and host *)

Record config := {
  BASE : string;
  USER : string;
  PASS : string;
  TOTP : option string;
  TARGET_USER_OVERRIDE : option string;
  JSON_PATH : string;
  PAGE_LIMIT : option Z       (* [Number(...)]; [None] is [NaN] *)
}.

(** An HTTP response: [r.ok], [r.status], [r.statusText] and the body as
    [r.json()] parses it ([None] when it is not JSON). *)
Record response := {
  ok : bool;
  status : Z;
  statusText : string;
  body : option value
}.

Inductive request :=
| ReqWarmup
| ReqLogin (body : obj)
| ReqList (targetUser : value)
| ReqFileInfo (vodId : value).

Record Meta := {
  generatedAt : string;
  baseUrl : string;
  targetUser : value;
  total : Z
}.

(** [type Store]; a [StoredVod] is an object. *)
Record Store := {
  meta : Meta;
  vods : list obj
}.

Record world := {
  warmup_resp : response;
  login_resp : response;
  (** answer to the [page]-th listing request for a target user *)
  list_resp : Z -> value -> response;
  (** answer to [get=file_info&ids=<id>] *)
  file_info_resp : value -> response;
  (** the n-th evaluation of [new Date().toISOString()] *)
  clock : nat -> string;
  (** [Date.parse] (with TimeClip); [None] is [NaN] *)
  date_parse : string -> option Z;
  (** what [loadStore(JSON_PATH)] returns *)
  stored : option Store
}.

(* ------------------------------------------------------------------ *)
(** ** Session client *)

(** [warmup]. *)
Definition warmup (w : world) : outcome unit :=
  let r := warmup_resp w in
  if negb (ok r)
  then Throw ("Warm-up failed: " ++ string_of_Z (status r) ++ " " ++ statusText r)
  else Done tt.

Definition TOTP_set (cfg : config) : bool :=
  match TOTP cfg with
  | Some t => negb (t =? "")%string
  | None => false
  end.

Definition login_body (cfg : config) : obj :=
  let body := [("action", VStr "login"); ("username", VStr (USER cfg));
               ("password", VStr (PASS cfg))] in
  match TOTP cfg with
  | Some t => if TOTP_set cfg then assign "totp" (VStr t) body else body
  | None => body
  end.

Definition totp_required_message : string :=
  "Login requires TOTP; set VAULT_TOTP and retry.".

(** The message of the generic server-reported login error. *)
Definition login_error_message (e : value) : string :=
  "Login error: " ++ to_string e.

(** [login]: returns [j.data]. *)
Definition login (cfg : config) (w : world) : outcome value :=
  let r := login_resp w in
  let j := match body r with Some j => j | None => VObj [] end in
  if negb (ok r) then Throw ("Login HTTP error: " ++ string_of_Z (status r))
  else
    err <- member j "error" ;;
    if strict_eq_prim err (VStr "TOTP_REQUIRED") && negb (TOTP_set cfg)
    then Throw totp_required_message
    else if truthy err then Throw (login_error_message err)
    else
      data <- member j "data" ;;
      if negb (truthy data) then Throw "Login: missing data"
      else Done data.

(** [fetchVodPage]: [page] and [limit] are not sent. *)
Definition fetchVodPage (w : world) (page : Z) (limit : option Z)
    (targetUser : value) : outcome value :=
  let r := list_resp w page targetUser in
  if negb (ok r) then Throw ("VOD list failed: " ++ string_of_Z (status r))
  else match body r with
       | Some list => Done list
       | None => Throw "SyntaxError: response body is not JSON"
       end.

(** [fetchFileInfo]. *)
Definition fetchFileInfo (w : world) (vodId : value) : outcome (list value) :=
  let r := file_info_resp w vodId in
  if negb (ok r) then Throw ("file_info failed: " ++ string_of_Z (status r))
  else match body r with
       | None => Throw "SyntaxError: response body is not JSON"
       | Some j =>
           data <- member j "data" ;;
           files <- member j "files" ;;
           let arr := data ?? files ?? VArr [] in
           Done (match arr with VArr l => l | _ => [] end)
       end.

Definition is_number (v : value) : bool :=
  match v with VNum _ => true | _ => false end.

(** [mapFileInfoToStoredFile]. *)
Definition mapFileInfoToStoredFile (f : value) : outcome obj :=
  match f with
  | VUndef | VNull => Throw "TypeError: cannot read properties of null or undefined"
  | _ =>
      Done
        [("fileId", prop f "fileId" ?? prop f "id" ?? prop f "versionId" ?? VUndef);
         ("fileName", prop f "fileName" ?? prop f "name" ?? VUndef);
         ("fileSizeRaw",
           if is_number (prop f "fileSizeRaw") then prop f "fileSizeRaw"
           else if is_number (prop f "size") then prop f "size" else VUndef);
         ("fileSize",
           prop f "fileSize" ??
             (if is_number (prop f "fileSizeRaw")
              then VStr (to_string (prop f "fileSizeRaw") ++ " B") else VUndef));
         ("downloadUrl", prop f "downloadUrl" ?? prop f "url" ?? VUndef);
         ("contentType", prop f "contentType" ?? prop f "mimeType" ?? VUndef);
         ("metadata", prop f "metadata" ?? VUndef)]
  end.

(* ------------------------------------------------------------------ *)
(** ** Normalizer and merge engine *)

(** [Set<string>] and [Map<string, StoredVod>] in insertion order. *)
Definition jsset : Type := list value.
Definition jsmap : Type := list (value * obj).

Definition set_has (s : jsset) (k : value) : bool :=
  existsb (same_value_zero k) s.

Definition set_add (k : value) (s : jsset) : jsset :=
  if set_has s k then s else (s ++ [k])%list.

Fixpoint map_get (m : jsmap) (k : value) : option obj :=
  match m with
  | [] => None
  | (k', v) :: m' => if same_value_zero k' k then Some v else map_get m' k
  end.

Fixpoint map_set (k : value) (v : obj) (m : jsmap) : jsmap :=
  match m with
  | [] => [(k, v)]
  | (k', v') :: m' =>
      if same_value_zero k' k then (k', v) :: m' else (k', v') :: map_set k v m'
  end.

Definition map_values (m : jsmap) : list obj := map snd m.

(** [existing?.vods ?? []]. *)
Definition existing_vods (existing : option Store) : list obj :=
  match existing with
  | Some s => vods s
  | None => []
  end.

(** [byIdSet]. *)
Definition byIdSet (store : option Store) : jsset :=
  fold_left (fun s v => set_add (get v "id") s) (existing_vods store) [].

(** [normalizeVod]: [Done None] is the rejected record ([return null]). *)
Definition normalizeVod (v : value) : outcome (option obj) :=
  ID <- member v "ID" ;;
  if negb (truthy ID) then Done None
  else
    Done (Some
      [("id", prop v "ID");
       ("title", prop v "title" ?? prop v "name" ?? VUndef);
       ("channel", prop v "channel" ?? prop v "twitch_channel" ?? VUndef);
       ("created_at", prop v "twitch_createdAt" ?? VUndef);
       ("duration_seconds", prop v "twitch_duration" ?? prop v "duration" ?? VUndef);
       ("twitch_id", prop v "twitch_ID" ?? VUndef)]).

(** [mergeVodPreservingFiles]. *)
Definition mergeVodPreservingFiles (oldV : option obj) (fresh : obj) : obj :=
  match oldV with
  | None => fresh
  | Some old =>
      let merged := spread (spread [] old) fresh in
      if strict_eq_prim (get fresh "files") VUndef
      then assign "files" (get old "files") merged
      else merged
  end.

(** [needsFileInfo]. *)
Definition needsFileInfo (v : option obj) : bool :=
  match v with
  | None => true
  | Some o =>
      if negb (truthy (get o "files"))
         || strict_eq_prim (prop (get o "files") "length") (VNum 0)
      then true
      else if negb (truthy (get o "filesFetchedAt")) then true
      else false
  end.

(** The object literals of the two branches of the merge loop. *)
Definition withFiles (old : option obj) (v : obj) (files : list obj)
    (now : string) : obj :=
  assign "filesFetchedAt" (VStr now)
    (assign "files" (VArr (map VObj files)) (spread (spread_opt [] old) v)).

Definition keepFiles (old : obj) (v : obj) : obj :=
  assign "filesFetchedAt" (get old "filesFetchedAt")
    (assign "files" (get old "files") (spread (spread [] old) v)).

(** [Number(new Date(x))]; [None] is [NaN]. *)
Definition date_number (w : world) (x : value) : option Z :=
  match x with
  | VUndef => None
  | VNull => Some 0
  | VBool b => Some (if b then 1 else 0)
  | VNum n => if Z.abs n <=? 8640000000000000 then Some n else None
  | VStr s => date_parse w s
  | VArr _ | VObj _ => date_parse w (to_string x)
  end.

Definition sort_key (w : world) (a : obj) : option Z :=
  date_number w (get a "recorded_at" ?? get a "created_at").

(** The comparator [(a, b) => tb - ta]. *)
Definition by_newest (w : world) (a b : obj) : option Z :=
  match sort_key w a, sort_key w b with
  | Some ta, Some tb => Some (tb - ta)
  | _, _ => None
  end.

(** [Array.prototype.sort]: a stable sort; a comparator result of [NaN]
    counts as [+0].  For a consistent comparator the result is the unique
    stable sorted arrangement, here computed by insertion; for a comparator
    that is not consistent the language leaves the order to the engine. *)
Definition sorts_after (c : option Z) : bool :=
  match c with Some z => 0 <? z | None => false end.

Fixpoint sort_insert {A} (cmp : A -> A -> option Z) (x : A) (l : list A) : list A :=
  match l with
  | [] => [x]
  | y :: l' =>
      if sorts_after (cmp x y) then y :: sort_insert cmp x l' else x :: l
  end.

Fixpoint js_sort {A} (cmp : A -> A -> option Z) (l : list A) : list A :=
  match l with
  | [] => []
  | x :: l' => sort_insert cmp x (js_sort cmp l')
  end.

(* ------------------------------------------------------------------ *)
(** ** [main] *)

Fixpoint foldM {A S} (f : S -> A -> outcome S) (l : list A) (s : S) : outcome S :=
  match l with
  | [] => Done s
  | a :: l' => s' <- f s a ;; foldM f l' s'
  end.

(** [for (const raw of list.data) { const sv = normalizeVod(raw); if (sv) all.push(sv); }] *)
Definition push_normalized (all : list obj) (raw : value) : outcome (list obj) :=
  sv <- normalizeVod raw ;;
  match sv with
  | Some o => Done (all ++ [o])%list
  | None => Done all
  end.

Definition below_limit (n : nat) (limit : option Z) : bool :=
  match limit with Some p => Z.of_nat n <? p | None => false end.

(** The [while (true)] page loop; [pages] counts the requests made. *)
Fixpoint fetchAllPages (w : world) (limit : option Z) (targetUser : value)
    (fuel : nat) (page : Z) (all : list obj) : outcome (list obj * Z) :=
  match fuel with
  | O => Looping
  | S fuel' =>
      list <- fetchVodPage w page limit targetUser ;;
      data <- member list "data" ;;
      match data with
      | VArr ((_ :: _) as items) =>
          all' <- foldM push_normalized items all ;;
          if below_limit (List.length items) limit then Done (all', page)
          else fetchAllPages w limit targetUser fuel' (page + 1) all'
      | _ => Done (all, page)
      end
  end.

Record merge_state := {
  mergedById : jsmap;
  newCount : Z;
  refreshedCount : Z;
  clock_reads : nat;        (* evaluations of [new Date()] so far *)
  fetched : list value      (* ids of the [file_info] requests, in order *)
}.

(** [for (const v of existing?.vods ?? []) mergedById.set(v.id, v)]. *)
Definition seed (existing : option Store) : jsmap :=
  fold_left (fun m v => map_set (get v "id") v m) (existing_vods existing) [].

(** The body of [for (const v of all)]. *)
Definition merge_step (w : world) (seen : jsset) (st : merge_state) (v : obj)
    : outcome merge_state :=
  let old := map_get (mergedById st) (get v "id") in
  let mustFetch := needsFileInfo old || negb (set_has seen (get v "id")) in
  if mustFetch then
    rawFiles <- fetchFileInfo w (get v "id") ;;
    files <- map_outcome mapFileInfoToStoredFile rawFiles ;;
    Done {| mergedById :=
              map_set (get v "id")
                (withFiles old v files (clock w (clock_reads st))) (mergedById st);
            newCount := if set_has seen (get v "id") then newCount st
                        else newCount st + 1;
            refreshedCount := if set_has seen (get v "id")
                              then refreshedCount st + 1 else refreshedCount st;
            clock_reads := S (clock_reads st);
            fetched := (fetched st ++ [get v "id"])%list |}
  else
    match old with
    | Some o =>
        Done {| mergedById := map_set (get v "id") (keepFiles o v) (mergedById st);
                newCount := newCount st;
                refreshedCount := refreshedCount st;
                clock_reads := clock_reads st;
                fetched := fetched st |}
    | None => Throw "TypeError: cannot read properties of undefined"
    end.

Definition merge_loop (w : world) (existing : option Store) (all : list obj)
    : outcome merge_state :=
  foldM (merge_step w (byIdSet existing)) all
    {| mergedById := seed existing; newCount := 0; refreshedCount := 0;
       clock_reads := O; fetched := [] |}.

Definition build_store (cfg : config) (w : world) (targetUser : value)
    (st : merge_state) : Store :=
  let mergedList := js_sort (by_newest w) (map_values (mergedById st)) in
  {| meta := {| generatedAt := clock w (clock_reads st);
                baseUrl := BASE cfg;
                targetUser := targetUser;
                total := Z.of_nat (List.length mergedList) |};
     vods := mergedList |}.

Fixpoint repeat_requests (n : nat) (r : request) : list request :=
  match n with O => [] | S n' => r :: repeat_requests n' r end.

(** [main]: the store handed to [saveStore] and the requests issued. *)
Definition main (cfg : config) (w : world) (fuel : nat)
    : outcome (Store * list request) :=
  _ <- warmup w ;;
  user <- login cfg w ;;
  let targetUser := prop user "username" in
  let existing := stored w in
  listed <- fetchAllPages w (PAGE_LIMIT cfg) targetUser fuel 1 [] ;;
  st <- merge_loop w existing (fst listed) ;;
  Done (build_store cfg w targetUser st,
        ([ReqWarmup; ReqLogin (login_body cfg)]
         ++ repeat_requests (Z.to_nat (snd listed)) (ReqList targetUser)
         ++ map ReqFileInfo (fetched st))%list).

(** [saveStore]: the JSON document written to [JSON_PATH]. *)
Definition store_value (s : Store) : value :=
  VObj [("meta", VObj [("generatedAt", VStr (generatedAt (meta s)));
                       ("baseUrl", VStr (baseUrl (meta s)));
                       ("targetUser", targetUser (meta s));
                       ("total", VNum (total (meta s)))]);
        ("vods", VArr (map VObj (vods s)))].

Definition saveStore (s : Store) : value := jsonify (store_value s).

(** What [loadStore] reads back from a document written by [saveStore]. *)
Definition reload (s : Store) : Store :=
  {| meta := {| generatedAt := generatedAt (meta s);
                baseUrl := baseUrl (meta s);
                targetUser := jsonify (targetUser (meta s));
                total := total (meta s) |};
     vods := map jsonify_obj (vods s) |}.

(** The claimed reading of the normalizer: the value of the first present
    key of a candidate list, left to right; a key is present when its value
    is neither [null] nor [undefined]. *)
Fixpoint first_present (v : value) (candidates : list string) : value :=
  match candidates with
  | [] => VUndef
  | k :: rest => if nullish (prop v k) then first_present v rest else prop v k
  end.

(** The five descriptive fields of a [StoredVod]. *)
Definition descriptive_fields : list string :=
  ["title"; "channel"; "created_at"; "duration_seconds"; "twitch_id"].

(* ------------------------------------------------------------------ *)
(** ** Example inputs *)

Definition ok_json (j : value) : response :=
  {| ok := true; status := 200; statusText := "OK"; body := Some j |}.

Definition login_ok (username : string) : response :=
  ok_json (VObj [("data", VObj [("ID", VStr "42"); ("username", VStr username)])]).

Definition test_clock (n : nat) : string := "T" ++ string_of_Z (Z.of_nat n).

Definition cfg_plain : config :=
  {| BASE := "https://vault.example"; USER := "bob"; PASS := "secret";
     TOTP := None; TARGET_USER_OVERRIDE := None;
     JSON_PATH := "vods.json"; PAGE_LIMIT := Some 100 |}.

Definition cfg_override : config :=
  {| BASE := "https://vault.example"; USER := "bob"; PASS := "secret";
     TOTP := None; TARGET_USER_OVERRIDE := Some "alice";
     JSON_PATH := "vods.json"; PAGE_LIMIT := Some 100 |}.

Definition cfg_totp : config :=
  {| BASE := "https://vault.example"; USER := "bob"; PASS := "secret";
     TOTP := Some "123456"; TARGET_USER_OVERRIDE := None;
     JSON_PATH := "vods.json"; PAGE_LIMIT := Some 100 |}.

(** A world with a given login answer, listing, file lists and snapshot. *)
Definition test_world (login_answer : response) (listing : list value)
    (files : value -> list value) (prior : option Store) : world :=
  {| warmup_resp := ok_json VNull;
     login_resp := login_answer;
     list_resp := fun _ _ => ok_json (VObj [("data", VArr listing)]);
     file_info_resp := fun id => ok_json (VObj [("data", VArr (files id))]);
     clock := test_clock;
     date_parse := fun _ => None;
     stored := prior |}.

Definition snapshot (entries : list obj) : Store :=
  {| meta := {| generatedAt := "2024-01-01T00:00:00.000Z";
                baseUrl := "https://vault.example";
                targetUser := VStr "bob";
                total := Z.of_nat (List.length entries) |};
     vods := entries |}.

Definition one_file : value :=
  VObj [("fileName", VStr "a.mp4"); ("fileSizeRaw", VNum 12)].

(** The server answers [TOTP_REQUIRED] to the login request. *)
Definition w_totp_required : world :=
  test_world (ok_json (VObj [("error", VStr "TOTP_REQUIRED")])) []
    (fun _ => []) None.

Definition w_bad_password : world :=
  test_world (ok_json (VObj [("error", VStr "BAD_PASSWORD")])) []
    (fun _ => []) None.

(** One listed VOD, logged in as bob. *)
Definition w_bob : world :=
  test_world (login_ok "bob") [VObj [("ID", VStr "7"); ("title", VStr "Stream")]]
    (fun _ => [one_file]) None.

(** A raw record carrying both duration keys and a generic creation key. *)
Definition raw_two_durations : value :=
  VObj [("ID", VStr "1"); ("duration", VNum 10); ("twitch_duration", VNum 20);
        ("created_at", VNum 5)].

Definition out_two_durations : obj :=
  [("id", VStr "1"); ("title", VUndef); ("channel", VUndef);
   ("created_at", VUndef); ("duration_seconds", VNum 20); ("twitch_id", VUndef)].

Definition raw_full : value :=
  VObj [("ID", VStr "1"); ("name", VStr "Stream"); ("twitch_channel", VStr "chan");
        ("twitch_createdAt", VNum 1700000000); ("duration", VNum 60)].

(** Entry 7 as stored by an earlier run, and a listing that repeats its id
    without a title. *)
Definition old7 : obj :=
  [("id", VStr "7"); ("title", VStr "Old title");
   ("files", VArr [VObj [("fileName", VStr "a.mp4")]]);
   ("filesFetchedAt", VStr "2024-01-01T00:00:00.000Z")].

Definition w_untitled7 : world :=
  test_world (login_ok "bob") [VObj [("ID", VStr "7")]] (fun _ => [one_file])
    (Some (snapshot [old7])).

(** What the run stores for entry 7 when the listing has no title for it. *)
Definition merged_untitled7 : obj :=
  [("id", VStr "7"); ("title", VUndef);
   ("files", VArr [VObj [("fileName", VStr "a.mp4")]]);
   ("filesFetchedAt", VStr "2024-01-01T00:00:00.000Z");
   ("channel", VUndef); ("created_at", VUndef); ("duration_seconds", VUndef);
   ("twitch_id", VUndef)].

(** [cfg] with another value of [VAULT_TARGET_USER]. *)
Definition with_override (o : option string) (cfg : config) : config :=
  {| BASE := BASE cfg; USER := USER cfg; PASS := PASS cfg; TOTP := TOTP cfg;
     TARGET_USER_OVERRIDE := o;
     JSON_PATH := JSON_PATH cfg; PAGE_LIMIT := PAGE_LIMIT cfg |}.

(** The entries of the store a run hands to [saveStore]. *)
Definition saved_vods (r : outcome (Store * list request)) : outcome (list obj) :=
  out <- r ;; Done (vods (fst out)).

(* ------------------------------------------------------------------ *)
(** ** Vocabulary of the properties *)

Definition vod_id (e : obj) : value := get e "id".

(** The [StoredFile] list a [file_info] request for [id] yields. *)
Definition stored_files (w : world) (id : value) : outcome (list obj) :=
  rawFiles <- fetchFileInfo w id ;;
  map_outcome mapFileInfoToStoredFile rawFiles.

(** The file list of an entry is missing or empty. *)
Definition files_missing_or_empty (e : obj) : bool :=
  match get e "files" with
  | VUndef | VArr [] => true
  | _ => false
  end.

(** The entry lacks a [filesFetchedAt] timestamp (a non-empty string). *)
Definition lacks_timestamp (e : obj) : bool :=
  match get e "filesFetchedAt" with
  | VStr s => (s =? "")%string
  | _ => true
  end.

(** An entry as [type StoredVod] declares it: the id is a primitive,
    [files] if present is an array, [filesFetchedAt] if present a string. *)
Definition typed_vod (e : obj) : bool :=
  is_primitive (vod_id e)
  && match get e "files" with VUndef | VArr _ => true | _ => false end
  && match get e "filesFetchedAt" with VUndef | VStr _ => true | _ => false end.

(** The fetch decision of the loop, taken on the prior snapshot. *)
Definition must_fetch (existing : option Store) (id : value) : bool :=
  needsFileInfo (map_get (seed existing) id) || negb (set_has (byIdSet existing) id).


(** The initial state of the merge loop. *)
Definition merge_init (existing : option Store) : merge_state :=
  {| mergedById := seed existing; newCount := 0; refreshedCount := 0;
     clock_reads := O; fetched := [] |}.

(** No two keys of the map are the same key. *)
Fixpoint distinct_keys (m : jsmap) : Prop :=
  match m with
  | [] => True
  | (k, _) :: m' =>
      (forall k', In k' (map fst m') -> same_value_zero k k' = false)
      /\ distinct_keys m'
  end.

(** A snapshot with one fresh entry, one with an empty file list and one
    with files but no timestamp; the listing repeats them and adds id 4. *)
Definition fresh1 : obj :=
  [("id", VStr "1"); ("title", VStr "one"); ("recorded_at", VNum 100);
   ("files", VArr [VObj [("fileName", VStr "one.mp4")]]);
   ("filesFetchedAt", VStr "2024-01-01T00:00:00.000Z")].

Definition empty2 : obj :=
  [("id", VStr "2"); ("title", VStr "two"); ("recorded_at", VNum 300);
   ("files", VArr []);
   ("filesFetchedAt", VStr "2024-01-01T00:00:00.000Z")].

Definition unstamped3 : obj :=
  [("id", VStr "3"); ("title", VStr "three"); ("recorded_at", VNum 200);
   ("files", VArr [VObj [("fileName", VStr "three.mp4")]])].

Definition listing_1234 : list value :=
  [VObj [("ID", VStr "1"); ("title", VStr "one")];
   VObj [("ID", VStr "2"); ("title", VStr "two")];
   VObj [("ID", VStr "3"); ("title", VStr "three")];
   VObj [("ID", VStr "4"); ("title", VStr "four"); ("twitch_createdAt", VNum 50)]].

Definition w_mixed : world :=
  test_world (login_ok "bob") listing_1234 (fun _ => [one_file])
    (Some (snapshot [fresh1; empty2; unstamped3])).

Definition normalized_entry (id title : string) (created : value) : obj :=
  [("id", VStr id); ("title", VStr title); ("channel", VUndef);
   ("created_at", created); ("duration_seconds", VUndef); ("twitch_id", VUndef)].

Definition all_1234 : list obj :=
  [normalized_entry "1" "one" VUndef; normalized_entry "2" "two" VUndef;
   normalized_entry "3" "three" VUndef; normalized_entry "4" "four" (VNum 50)].


Definition run_trace (r : outcome (Store * list request)) : list request :=
  match r with Done (_, tr) => tr | _ => [] end.

Definition run_vods (r : outcome (Store * list request)) : list obj :=
  match r with Done (s, _) => vods s | _ => [] end.

(** Three stored entries recorded at 100, 300 and 200, listed again. *)
Definition listing_123 : list value :=
  [VObj [("ID", VStr "1"); ("title", VStr "one")];
   VObj [("ID", VStr "2"); ("title", VStr "two")];
   VObj [("ID", VStr "3"); ("title", VStr "three")]].




(** The last entry of the listing with a given id. *)
Definition last_listed (all : list obj) (i : value) : option obj :=
  find (fun v => same_value_zero (vod_id v) i) (rev all).

Definition listed (all : list obj) (i : value) : bool :=
  existsb (fun v => same_value_zero (vod_id v) i) all.






(** Pairwise different keys. *)
Fixpoint distinct (ks : list value) : Prop :=
  match ks with
  | [] => True
  | k :: ks' =>
      (forall k', In k' ks' -> same_value_zero k k' = false) /\ distinct ks'
  end.

(** No entry has to move: no element sorts after its right neighbour. *)
Definition settled (w : world) (l : list obj) : Prop :=
  Sorted (fun a b => sorts_after (by_newest w a b) = false) l.



Definition listing_keys : list string :=
  ["id"; "title"; "channel"; "created_at"; "duration_seconds"; "twitch_id"].



Definition empty_store : Store :=
  {| meta := {| generatedAt := ""; baseUrl := ""; targetUser := VUndef; total := 0 |};
     vods := [] |}.

Definition saved_store (r : outcome (Store * list request)) : Store :=
  match r with Done (s, _) => s | _ => empty_store end.






(** A normalized entry has exactly the six listing keys. *)
Definition normalized (v : obj) : Prop :=
  exists a b c d e f,
    v = [("id", a); ("title", b); ("channel", c); ("created_at", d);
         ("duration_seconds", e); ("twitch_id", f)].

(** The two ways an iteration of the loop completes. *)
Inductive step_result (w : world) (seen : jsset) (st : merge_state) (v : obj)
    (st' : merge_state) : Prop :=
| step_fetch (files : list obj) :
    needsFileInfo (map_get (mergedById st) (vod_id v))
      || negb (set_has seen (vod_id v)) = true ->
    stored_files w (vod_id v) = Done files ->
    mergedById st' =
      map_set (vod_id v)
        (withFiles (map_get (mergedById st) (vod_id v)) v files
           (clock w (clock_reads st))) (mergedById st) ->
    clock_reads st' = S (clock_reads st) ->
    fetched st' = (fetched st ++ [vod_id v])%list ->
    step_result w seen st v st'
| step_keep (old : obj) :
    needsFileInfo (map_get (mergedById st) (vod_id v)) = false ->
    set_has seen (vod_id v) = true ->
    map_get (mergedById st) (vod_id v) = Some old ->
    mergedById st' = map_set (vod_id v) (keepFiles old v) (mergedById st) ->
    clock_reads st' = clock_reads st ->
    fetched st' = fetched st ->
    step_result w seen st v st'.

(** What holds of the loop state after the entries [pre] of the listing. *)
Record loop_inv (existing : option Store) (pre : list obj) (st : merge_state)
    : Prop := {
  inv_unlisted : forall i,
    existsb (fun v => same_value_zero (vod_id v) i) pre = false ->
    map_get (mergedById st) i = map_get (seed existing) i;
  inv_fetched_listed : forall i,
    In i (fetched st) -> exists v, In v pre /\ vod_id v = i;
  inv_fetch_done : forall v,
    In v pre -> must_fetch existing (vod_id v) = true ->
    In (vod_id v) (fetched st);
  inv_fresh : forall i,
    must_fetch existing i = false ->
    ~ In i (fetched st) /\
    exists e x, map_get (seed existing) i = Some e /\
                map_get (mergedById st) i = Some x /\
                get x "files" = get e "files" /\
                get x "filesFetchedAt" = get e "filesFetchedAt";
  inv_ids : forall k x, In (k, x) (mergedById st) -> vod_id x = k;
  inv_keys : forall k,
    In k (map fst (seed existing)) -> In k (map fst (mergedById st));
  inv_recorded : forall k x,
    In (k, x) (mergedById st) ->
    In k (map fst (seed existing)) \/ has_key x "recorded_at" = false
}.

(** What the loop leaves in the entry of a listed id. *)
Record listed_inv (w : world) (pre : list obj) (st : merge_state) : Prop := {
  inv_last : forall i v,
    last_listed pre i = Some v ->
    exists x, map_get (mergedById st) i = Some x /\
              forall k, has_key v k = true -> get x k = get v k;
  inv_listed : forall i,
    listed pre i = true ->
    exists x, map_get (mergedById st) i = Some x /\
      (needsFileInfo (Some x) = false \/
       exists fs n, stored_files w i = Done fs /\
                    get x "files" = VArr (map VObj fs) /\
                    get x "filesFetchedAt" = VStr (clock w n))
}.



(* ------------------------------------------------------------------ *)
(** ** Session client: cookie jar and request headers *)

(** [CookieJar = Map<string, string>], in insertion order. *)
Definition CookieJar : Type := list (string * string).

Fixpoint jar_get (jar : CookieJar) (name : string) : option string :=
  match jar with
  | [] => None
  | (n, v) :: jar' => if (n =? name)%string then Some v else jar_get jar' name
  end.

Fixpoint jar_set (name value : string) (jar : CookieJar) : CookieJar :=
  match jar with
  | [] => [(name, value)]
  | (n, v) :: jar' =>
      if (n =? name)%string then (n, value) :: jar'
      else (n, v) :: jar_set name value jar'
  end.

(** [setCookiesFrom]: [cookies] are the name/value pairs [getSetCookies]
    reads from the response headers, in header order. *)
Definition setCookiesFrom (jar : CookieJar) (cookies : list (string * string))
    : CookieJar :=
  fold_left (fun j c => jar_set (fst c) (snd c) j) cookies jar.

(** [cookieHeader]; [None] is [undefined]. *)
Definition cookieHeader (jar : CookieJar) : option string :=
  match jar with
  | [] => None
  | _ => Some (join_with "; " (map (fun kv => fst kv ++ "=" ++ snd kv) jar))
  end.

(** [xsrfHeaderValue]; [decodeURIComponent] is the host function, [None]
    when it throws. *)
Definition xsrfHeaderValue (decodeURIComponent : string -> option string)
    (jar : CookieJar) : option string :=
  match jar_get jar "XSRF-TOKEN" with
  | None => None
  | Some v =>
      if (v =? "")%string then None
      else match decodeURIComponent v with
           | Some decoded => Some decoded
           | None => Some v
           end
  end.

(** [defaultHeaders(json)]; [ORIGIN] is [originOf(BASE)]. *)
Definition defaultHeaders (ORIGIN : string)
    (decodeURIComponent : string -> option string) (jar : CookieJar)
    (json : bool) : obj :=
  let h := [("Accept", VStr "application/json, text/plain, */*");
            ("Origin", VStr ORIGIN);
            ("Referer", VStr (ORIGIN ++ "/"));
            ("X-Requested-With", VStr "XMLHttpRequest")] in
  let h := match xsrfHeaderValue decodeURIComponent jar with
           | Some xsrf =>
               if (xsrf =? "")%string then h
               else assign "X-CSRF-Token" (VStr xsrf)
                      (assign "X-XSRF-TOKEN" (VStr xsrf) h)
           | None => h
           end in
  let h := match cookieHeader jar with
           | Some ck => if (ck =? "")%string then h else assign "Cookie" (VStr ck) h
           | None => h
           end in
  if json then assign "Content-Type" (VStr "application/json") h else h.

(** [fetchWithCookies]: the headers a request is sent with and the jar
    after its response. *)
Definition fetchWithCookies (ORIGIN : string)
    (decodeURIComponent : string -> option string) (jar : CookieJar)
    (json : bool) (response_cookies : list (string * string))
    : obj * CookieJar :=
  (defaultHeaders ORIGIN decodeURIComponent jar json,
   setCookiesFrom jar response_cookies).

(** The last cookie of a response with a given name. *)
Definition last_cookie (cookies : list (string * string)) (name : string)
    : option string :=
  option_map snd (find (fun c => (fst c =? name)%string) (rev cookies)).

(* ------------------------------------------------------------------ *)
(** ** [resolveVodIdForFileInfo] *)

Fixpoint first_truthy (v : obj) (candidates : list string) : option string :=
  match candidates with
  | [] => None
  | k :: rest =>
      if truthy (get v k) then Some (to_string (get v k))
      else first_truthy v rest
  end.

Definition resolveVodIdForFileInfo (v : obj) : option string :=
  first_truthy v ["id"; "vod_id"; "twitch_id"; "vodId"].

(* ------------------------------------------------------------------ *)
(** ** The page renderer ([frontend.js])

    Strings are sequences of bytes; the characters the renderer looks for
    are ASCII, and no byte of a multi-byte character is ASCII. *)

Definition double_quote : ascii := "034"%char.

(** The replacement table of [escapeHtml]. *)
Definition html_entity (c : ascii) : string :=
  if (c =? "&")%char then "&amp;"
  else if (c =? "<")%char then "&lt;"
  else if (c =? ">")%char then "&gt;"
  else if (c =? double_quote)%char then "&quot;"
  else String c "".

Definition attr_entity (c : ascii) : string :=
  if (c =? double_quote)%char then "&quot;" else String c "".

(** [s.replace(/[...]/g, f)] for a class of single characters: [f] gives
    the replacement of a character of the class and the character itself
    otherwise. *)
Fixpoint replace_chars (f : ascii -> string) (s : string) : string :=
  match s with
  | EmptyString => EmptyString
  | String c rest => f c ++ replace_chars f rest
  end.

Definition escapeHtml (s : value) : string := replace_chars html_entity (to_string s).

Definition escapeAttr (s : value) : string := replace_chars attr_entity (to_string s).

Fixpoint string_mem (c : ascii) (s : string) : bool :=
  match s with
  | EmptyString => false
  | String c' rest => (c' =? c)%char || string_mem c rest
  end.

(** [a || b]. *)
Definition logical_or (a b : value) : value := if truthy a then a else b.

(** Case folding of the [i] flag on ASCII. *)
Definition to_lower (c : ascii) : ascii :=
  let n := nat_of_ascii c in
  if (65 <=? n)%nat && (n <=? 90)%nat then ascii_of_nat (n + 32) else c.

(** A word character of [\b]. *)
Definition is_word (c : ascii) : bool :=
  let n := nat_of_ascii c in
  ((48 <=? n)%nat && (n <=? 57)%nat) || ((65 <=? n)%nat && (n <=? 90)%nat)
  || ((97 <=? n)%nat && (n <=? 122)%nat) || (n =? 95)%nat.

Fixpoint strip_prefix_ci (p s : string) : option string :=
  match p with
  | EmptyString => Some s
  | String a p' =>
      match s with
      | EmptyString => None
      | String b s' =>
          if (to_lower a =? to_lower b)%char then strip_prefix_ci p' s' else None
      end
  end.

Definition video_extensions : list string :=
  ["mp4"; "mkv"; "m3u8"; "mov"; "ts"; "webm"].

(** [\.(mp4|mkv|m3u8|mov|ts|webm)\b] matches at the start of [s]. *)
Definition extension_here (s : string) : bool :=
  match s with
  | String c rest =>
      (c =? ".")%char &&
      existsb (fun ext =>
                 match strip_prefix_ci ext rest with
                 | Some EmptyString => true
                 | Some (String next _) => negb (is_word next)
                 | None => false
                 end) video_extensions
  | EmptyString => false
  end.

(** [/\.(mp4|mkv|m3u8|mov|ts|webm)\b/i.test(s)]. *)
Fixpoint video_name (s : string) : bool :=
  extension_here s
  || match s with
     | EmptyString => false
     | String _ rest => video_name rest
     end.

(** [isVideo]. *)
Definition isVideo (f : obj) : bool :=
  video_name
    (to_string (logical_or (get f "fileName")
                  (logical_or (get f "downloadUrl") (VStr "")))).

(** [[...files].sort((a, b) => Number(isVideo(b)) - Number(isVideo(a)))]. *)
Definition video_first (files : list obj) : list obj :=
  js_sort (fun a b => Some (Z.b2z (isVideo b) - Z.b2z (isVideo a))) files.

(* ------------------------------------------------------------------ *)
(** ** Further vocabulary *)

Definition is_list_request (r : request) : bool :=
  match r with ReqList _ => true | _ => false end.

Definition file_info_ids (tr : list request) : list value :=
  flat_map (fun r => match r with ReqFileInfo id => [id] | _ => [] end) tr.

(** The server answers every listing request for [tu] alike (the page
    number is not sent). *)
Definition same_listing_each_page (w : world) (tu : value) : Prop :=
  forall page, list_resp w page tu = list_resp w 1 tu.

Definition merge_result (r : outcome merge_state) : merge_state :=
  match r with Done st => st | _ => merge_init None end.

Definition cfg_limit4 : config :=
  {| BASE := "https://vault.example"; USER := "bob"; PASS := "secret";
     TOTP := None; TARGET_USER_OVERRIDE := None;
     JSON_PATH := "vods.json"; PAGE_LIMIT := Some 4 |}.

(** The server fails the [file_info] request. *)
Definition w_file_info_down : world :=
  {| warmup_resp := ok_json VNull;
     login_resp := login_ok "bob";
     list_resp := fun _ _ => ok_json (VObj [("data", VArr listing_1234)]);
     file_info_resp := fun _ => {| ok := false; status := 503;
                                   statusText := "Service Unavailable";
                                   body := None |};
     clock := test_clock;
     date_parse := fun _ => None;
     stored := Some (snapshot [fresh1; empty2; unstamped3]) |}.


(** Lower-casing a text on ASCII. *)
Fixpoint lower (s : string) : string :=
  match s with
  | EmptyString => EmptyString
  | String c rest => String (to_lower c) (lower rest)
  end.

(** [\b] holds in front of [rest] when a word character precedes it. *)
Definition word_ends (rest : string) : bool :=
  match rest with
  | EmptyString => true
  | String c _ => negb (is_word c)
  end.

(** Entry 7 of the prior snapshot is no longer listed. *)
Definition w_unlisted7 : world :=
  test_world (login_ok "bob") listing_123 (fun _ => [one_file])
    (Some (snapshot [fresh1; old7])).

Definition all_123 : list obj :=
  [normalized_entry "1" "one" VUndef; normalized_entry "2" "two" VUndef;
   normalized_entry "3" "three" VUndef].

(** A file record with a numeric [size] only. *)
Definition file_size_only : value :=
  VObj [("name", VStr "b.mkv"); ("size", VNum 7); ("url", VNull)].

(* ------------------------------------------------------------------ *)
(** ** What the engine's sort guarantees *)





(* ------------------------------------------------------------------ *)
(** ** Objects: reading after writing *)

Lemma get_assign (k k' : string) (x : value) (o : obj) :
  get (assign k x o) k' = if (k =? k')%string then x else get o k'.
Proof.
  induction o as [|[k0 v0] o IH]; simpl.
  - reflexivity.
  - destruct (String.eqb_spec k0 k) as [->|Hk0]; simpl.
    + destruct (k =? k')%string; reflexivity.
    + rewrite IH. destruct (String.eqb_spec k0 k') as [->|Hk0'].
      * destruct (String.eqb_spec k k') as [->|_]; [contradiction|reflexivity].
      * reflexivity.
Qed.

Lemma get_assign_same (k : string) (x : value) (o : obj) :
  get (assign k x o) k = x.
Proof. rewrite get_assign, String.eqb_refl. reflexivity. Qed.

Lemma get_assign_other (k k' : string) (x : value) (o : obj) :
  k <> k' -> get (assign k x o) k' = get o k'.
Proof.
  intros H. rewrite get_assign.
  destruct (String.eqb_spec k k'); [contradiction|reflexivity].
Qed.

Lemma has_key_assign (k k' : string) (x : value) (o : obj) :
  has_key (assign k x o) k' = (k =? k')%string || has_key o k'.
Proof.
  induction o as [|[k0 v0] o IH]; simpl.
  - rewrite orb_false_r. reflexivity.
  - destruct (String.eqb_spec k0 k) as [->|Hk0]; simpl.
    + destruct (k =? k')%string; reflexivity.
    + rewrite IH. destruct (k0 =? k')%string, (k =? k')%string; reflexivity.
Qed.

Lemma get_no_key (o : obj) (k : string) : has_key o k = false -> get o k = VUndef.
Proof.
  induction o as [|[k0 v0] o IH]; simpl; [reflexivity|].
  destruct (k0 =? k)%string; simpl; [discriminate|exact IH].
Qed.

(** Spreading an object that has no property [k] leaves [k] as it was. *)
Lemma get_spread_other (base o : obj) (k : string) :
  has_key o k = false -> get (spread base o) k = get base k.
Proof.
  unfold spread. revert base.
  induction o as [|[k0 v0] o IH]; simpl; intros base H; [reflexivity|].
  apply orb_false_iff in H as [H0 H1].
  rewrite (IH _ H1). rewrite get_assign, H0. reflexivity.
Qed.

Lemma has_key_spread (base o : obj) (k : string) :
  has_key (spread base o) k = has_key base k || has_key o k.
Proof.
  unfold spread. revert base.
  induction o as [|[k0 v0] o IH]; simpl; intros base.
  - rewrite orb_false_r. reflexivity.
  - rewrite IH, has_key_assign.
    destruct (k0 =? k)%string, (has_key base k), (has_key o k); reflexivity.
Qed.

Lemma normalizeVod_normalized (raw : value) (v : obj) :
  normalizeVod raw = Done (Some v) -> normalized v.
Proof.
  unfold normalizeVod, member.
  destruct raw; simpl; try discriminate;
    match goal with
    | |- context [if ?c then _ else _] => destruct c; try discriminate
    end;
    intros H; injection H as <-; unfold normalized; eauto 10.
Qed.

Lemma normalizeVod_id_truthy (raw : value) (v : obj) :
  normalizeVod raw = Done (Some v) -> truthy (get v "id") = true.
Proof.
  unfold normalizeVod, member.
  destruct raw; simpl; try discriminate;
    match goal with
    | |- context [if negb ?c then _ else _] => destruct c eqn:E; try discriminate
    end;
    intros H; injection H as <-; simpl; exact E.
Qed.

(** Overlaying a normalized entry: its six keys win, everything else stays. *)
Lemma get_spread_normalized (base v : obj) (k : string) :
  normalized v ->
  get (spread base v) k = if has_key v k then get v k else get base k.
Proof.
  intros (a & b & c & d & e & f & ->). unfold spread. simpl.
  rewrite !get_assign.
  repeat match goal with
         | |- context [(?x =? k)%string] =>
             destruct (String.eqb_spec x k) as [<-|?]; simpl
         end; try reflexivity; try congruence.
Qed.

(* ------------------------------------------------------------------ *)
(** ** Normalizer *)

(** C7 (as amended): for every accepted raw record, title is the first
    present of [title], [name]; channel the first present of [channel],
    [twitch_channel]; the created timestamp is read from the twitch-specific
    key [twitch_createdAt] alone; duration is the first present of
    [twitch_duration], [duration] (twitch-specific first). *)
Theorem normalizeVod_candidates (raw : value) (out : obj) :
  normalizeVod raw = Done (Some out) ->
  get out "title" = first_present raw ["title"; "name"] /\
  get out "channel" = first_present raw ["channel"; "twitch_channel"] /\
  get out "created_at" = first_present raw ["twitch_createdAt"] /\
  get out "duration_seconds" = first_present raw ["twitch_duration"; "duration"].
Proof.
  unfold normalizeVod. destruct (member raw "ID") as [ID| |]; simpl; try discriminate.
  destruct (truthy ID); simpl; try discriminate.
  intros H. injection H as <-.
  unfold first_present, coalesce.
  repeat split; cbn [get]; cbv [String.eqb Ascii.eqb Bool.eqb];
    repeat match goal with
           | |- context [nullish ?x] => destruct (nullish x)
           end; reflexivity.
Qed.

Lemma normalizeVod_candidates_witness :
  get [("id", VStr "1"); ("title", VStr "Stream"); ("channel", VStr "chan");
       ("created_at", VNum 1700000000); ("duration_seconds", VNum 60);
       ("twitch_id", VUndef)] "title"
  = first_present raw_full ["title"; "name"].
Proof.
  exact (proj1 (normalizeVod_candidates raw_full _ eq_refl)).
Defined.

(** C7 as stated fails: with both duration keys present the twitch-specific
    one wins over the generic one, and a generic creation key is not read. *)
Lemma normalizeVod_generic_first_fails :
  normalizeVod raw_two_durations = Done (Some out_two_durations) /\
  get out_two_durations "duration_seconds" = VNum 20 /\
  first_present raw_two_durations ["duration"; "twitch_duration"] = VNum 10 /\
  get out_two_durations "created_at" = VUndef /\
  first_present raw_two_durations ["created_at"; "twitch_createdAt"] = VNum 5.
Proof. repeat split. Qed.

(* ------------------------------------------------------------------ *)
(** ** Overlay of a fresh entry on the prior one *)

Lemma normalized_has_descriptive (v : obj) (k : string) :
  normalized v -> In k descriptive_fields -> has_key v k = true.
Proof.
  intros (a & b & c & d & e & f & ->) Hk. simpl in Hk.
  repeat destruct Hk as [<-|Hk]; try reflexivity. contradiction.
Qed.

Lemma normalized_no_files (v : obj) :
  normalized v ->
  has_key v "files" = false /\ has_key v "filesFetchedAt" = false /\
  has_key v "recorded_at" = false.
Proof. intros (a & b & c & d & e & f & ->). repeat split. Qed.

Lemma descriptive_not_files (k : string) :
  In k descriptive_fields -> k <> "files" /\ k <> "filesFetchedAt".
Proof.
  intros Hk. simpl in Hk.
  repeat destruct Hk as [<-|Hk]; try (split; discriminate). contradiction.
Qed.

Lemma has_key_In (o : obj) (k : string) : has_key o k = true <-> In k (keys o).
Proof.
  induction o as [|[k0 v0] o IH]; simpl.
  - split; [discriminate|contradiction].
  - rewrite orb_true_iff, IH, String.eqb_eq. reflexivity.
Qed.

Lemma assign_fresh (k : string) (x : value) (o : obj) :
  ~ In k (keys o) -> assign k x o = (o ++ [(k, x)])%list.
Proof.
  induction o as [|[k0 v0] o IH]; simpl; intros H; [reflexivity|].
  destruct (String.eqb_spec k0 k) as [->|_].
  - exfalso. apply H. left. reflexivity.
  - rewrite IH; [reflexivity|]. intros Hin. apply H. right. exact Hin.
Qed.

(** Spreading an object with distinct property names onto an object that
    has none of them appends it. *)
Lemma spread_fresh (base o : obj) :
  NoDup (keys o) -> (forall k, In k (keys o) -> ~ In k (keys base)) ->
  spread base o = (base ++ o)%list.
Proof.
  unfold spread. revert base.
  induction o as [|[k0 v0] o IH]; simpl; intros base Hnd Hdisj.
  - rewrite app_nil_r. reflexivity.
  - inversion Hnd as [|? ? Hk0 Hnd']; subst.
    rewrite assign_fresh by (apply Hdisj; left; reflexivity).
    rewrite IH; [rewrite <- app_assoc; reflexivity|assumption|].
    intros k Hk Hin. unfold keys in Hin. rewrite map_app in Hin.
    apply in_app_or in Hin as [Hin|[<-|[]]].
    + apply (Hdisj k); [right; exact Hk|exact Hin].
    + apply Hk0, Hk.
Qed.

(** [{ ...o }] is a copy of [o]. *)
Lemma spread_copy (o : obj) : NoDup (keys o) -> spread [] o = o.
Proof.
  intros H. rewrite spread_fresh; [reflexivity|assumption|].
  intros k _ [].
Qed.

Lemma get_keepFiles (old v : obj) (k : string) :
  NoDup (keys old) -> normalized v -> k <> "files" -> k <> "filesFetchedAt" ->
  get (keepFiles old v) k = if has_key v k then get v k else get old k.
Proof.
  intros Hold Hv Hf Ht. unfold keepFiles.
  rewrite !get_assign_other by congruence.
  rewrite get_spread_normalized by assumption.
  rewrite spread_copy by assumption. reflexivity.
Qed.

Lemma get_withFiles (old : option obj) (v : obj) (files : list obj)
    (now : string) (k : string) :
  (forall o, old = Some o -> NoDup (keys o)) ->
  normalized v -> k <> "files" -> k <> "filesFetchedAt" ->
  get (withFiles old v files now) k =
    if has_key v k then get v k
    else match old with Some o => get o k | None => VUndef end.
Proof.
  intros Hold Hv Hf Ht. unfold withFiles.
  rewrite !get_assign_other by congruence.
  rewrite get_spread_normalized by assumption.
  destruct old as [o|]; simpl.
  - rewrite spread_copy by (apply Hold; reflexivity). reflexivity.
  - reflexivity.
Qed.

Lemma get_mergeVodPreservingFiles (old v : obj) (k : string) :
  NoDup (keys old) -> normalized v -> k <> "files" ->
  get (mergeVodPreservingFiles (Some old) v) k =
    if has_key v k then get v k else get old k.
Proof.
  intros Hold Hv Hf. unfold mergeVodPreservingFiles.
  destruct (strict_eq_prim (get v "files") VUndef).
  - rewrite get_assign_other by congruence.
    rewrite get_spread_normalized, spread_copy by assumption. reflexivity.
  - rewrite get_spread_normalized, spread_copy by assumption. reflexivity.
Qed.

(** C3 (as amended): in the merge of a freshly normalized entry with its
    prior entry, every descriptive field takes the fresh entry's value, also
    when that value is [undefined] (the normalizer writes all five keys, so
    the prior value does not survive); a property the fresh entry does not
    carry, such as [recorded_at], keeps the prior entry's value.  This holds
    in both branches of the loop and for [mergeVodPreservingFiles]. *)
Theorem merge_descriptive_fields (raw : value) (fresh old : obj)
    (files : list obj) (now : string) :
  normalizeVod raw = Done (Some fresh) ->
  NoDup (keys old) ->
  (forall k, In k descriptive_fields ->
     get (keepFiles old fresh) k = get fresh k /\
     get (withFiles (Some old) fresh files now) k = get fresh k /\
     get (mergeVodPreservingFiles (Some old) fresh) k = get fresh k) /\
  (forall k, has_key fresh k = false -> k <> "files" -> k <> "filesFetchedAt" ->
     get (keepFiles old fresh) k = get old k /\
     get (withFiles (Some old) fresh files now) k = get old k /\
     get (mergeVodPreservingFiles (Some old) fresh) k = get old k).
Proof.
  intros Hraw Hold. apply normalizeVod_normalized in Hraw as Hn.
  split.
  - intros k Hk.
    pose proof (normalized_has_descriptive _ _ Hn Hk) as Hhas.
    destruct (descriptive_not_files _ Hk) as [Hf Ht].
    rewrite get_keepFiles, get_withFiles, get_mergeVodPreservingFiles
      by (try assumption; intros o [= <-]; assumption).
    rewrite Hhas. auto.
  - intros k Hhas Hf Ht.
    rewrite get_keepFiles, get_withFiles, get_mergeVodPreservingFiles
      by (try assumption; intros o [= <-]; assumption).
    rewrite Hhas. auto.
Qed.

Lemma merge_descriptive_fields_witness :
  get (keepFiles old7 [("id", VStr "7"); ("title", VUndef); ("channel", VUndef);
                       ("created_at", VUndef); ("duration_seconds", VUndef);
                       ("twitch_id", VUndef)]) "title" = VUndef.
Proof.
  refine (proj1 (proj1 (merge_descriptive_fields (VObj [("ID", VStr "7")]) _ old7
                          [] "" eq_refl _) "title" _)).
  - unfold old7, keys. simpl. repeat constructor; simpl; intuition discriminate.
  - simpl. auto.
Defined.

(** C3 as stated fails: entry 7 was stored with a title, the listing repeats
    it without one, and the saved entry has no title left. *)
Lemma merge_drops_prior_title :
  get old7 "title" = VStr "Old title" /\
  saved_vods (main cfg_plain w_untitled7 2) = Done [merged_untitled7] /\
  get merged_untitled7 "title" = VUndef /\
  get (jsonify_obj merged_untitled7) "title" = VUndef.
Proof. repeat split. Qed.

(* ------------------------------------------------------------------ *)
(** ** Login *)

Lemma totp_message_not_generic (e : value) :
  totp_required_message <> login_error_message e.
Proof.
  unfold totp_required_message, login_error_message. simpl. discriminate.
Qed.

(** C5 (as amended): when the server answers [TOTP_REQUIRED], the failure is
    the distinct "TOTP required" error only if no one-time-password is
    configured; with one configured the failure is the generic
    server-reported login error, built from the error string like for any
    other server error.  The two messages never coincide. *)
Theorem login_totp_required (cfg : config) (w : world) (j : obj) :
  ok (login_resp w) = true ->
  body (login_resp w) = Some (VObj j) ->
  get j "error" = VStr "TOTP_REQUIRED" ->
  (TOTP_set cfg = true ->
     login cfg w = Throw (login_error_message (VStr "TOTP_REQUIRED"))) /\
  (TOTP_set cfg = false -> login cfg w = Throw totp_required_message) /\
  (forall e, totp_required_message <> login_error_message e).
Proof.
  intros Hok Hbody Herr. unfold login. rewrite Hok, Hbody. simpl. rewrite Herr.
  repeat split.
  - intros ->. reflexivity.
  - intros ->. reflexivity.
  - apply totp_message_not_generic.
Qed.

Lemma login_totp_required_witness :
  login cfg_plain w_totp_required = Throw totp_required_message.
Proof.
  refine (proj1 (proj2 (login_totp_required cfg_plain w_totp_required
                          [("error", VStr "TOTP_REQUIRED")] _ _ _)) _);
    reflexivity.
Defined.

(** C5 as stated fails: with a one-time-password configured, the answer
    [TOTP_REQUIRED] fails with the generic server-reported login error, the
    same one any other error string produces. *)
Lemma login_totp_configured_generic :
  TOTP_set cfg_totp = true /\
  login cfg_totp w_totp_required
    = Throw (login_error_message (VStr "TOTP_REQUIRED")) /\
  login cfg_totp w_bad_password
    = Throw (login_error_message (VStr "BAD_PASSWORD")).
Proof. repeat split. Qed.

(* ------------------------------------------------------------------ *)
(** ** Target user *)

(** C6 fails on the code: [VAULT_TARGET_USER] is read but never used.  A run
    does not depend on it, and with the override [alice] and a login as
    [bob] the listing is requested for [bob]. *)
Theorem target_user_ignores_override :
  (forall cfg w fuel o, main (with_override o cfg) w fuel = main cfg w fuel) /\
  TARGET_USER_OVERRIDE cfg_override = Some "alice" /\
  (exists s, main cfg_override w_bob 2
             = Done (s, [ReqWarmup; ReqLogin (login_body cfg_override);
                         ReqList (VStr "bob"); ReqFileInfo (VStr "7")])
             /\ targetUser (meta s) = VStr "bob").
Proof.
  repeat split.
  eexists. split; reflexivity.
Qed.

(* ------------------------------------------------------------------ *)
(** ** Keys of the [Map] and the [Set] *)

Lemma strict_eq_prim_eq (a b : value) : strict_eq_prim a b = true -> a = b.
Proof.
  destruct a, b; simpl; try discriminate; intros H; try reflexivity.
  - apply Bool.eqb_prop in H. congruence.
  - apply Z.eqb_eq in H. congruence.
  - apply String.eqb_eq in H. congruence.
Qed.

Lemma same_value_zero_eq (a b : value) : same_value_zero a b = true -> a = b.
Proof. apply strict_eq_prim_eq. Qed.

Lemma same_value_zero_refl (a : value) :
  is_primitive a = true -> same_value_zero a a = true.
Proof.
  destruct a; simpl; try discriminate; intros _; try reflexivity.
  - apply Bool.eqb_reflx.
  - apply Z.eqb_refl.
  - apply String.eqb_refl.
Qed.

Lemma same_value_zero_primitive (a b : value) :
  same_value_zero a b = true -> is_primitive a = true.
Proof. destruct a, b; simpl; try discriminate; reflexivity. Qed.

Lemma same_value_zero_sym (a b : value) :
  same_value_zero a b = same_value_zero b a.
Proof.
  destruct (same_value_zero a b) eqn:E.
  - pose proof (same_value_zero_primitive _ _ E).
    apply same_value_zero_eq in E. subst. symmetry.
    apply same_value_zero_refl. assumption.
  - destruct (same_value_zero b a) eqn:E'; [|reflexivity].
    pose proof (same_value_zero_primitive _ _ E').
    apply same_value_zero_eq in E'. subst.
    rewrite same_value_zero_refl in E by assumption. discriminate.
Qed.

(** A key that is not primitive matches nothing. *)
Lemma same_value_zero_object (a b : value) :
  is_primitive b = false -> same_value_zero a b = false.
Proof.
  intros H. destruct (same_value_zero a b) eqn:E; [|reflexivity].
  pose proof (same_value_zero_primitive _ _ E) as Ha.
  apply same_value_zero_eq in E. subst. congruence.
Qed.

Lemma map_get_set_same (k k' : value) (x : obj) (m : jsmap) :
  same_value_zero k k' = true -> map_get (map_set k x m) k' = Some x.
Proof.
  intros H. pose proof (same_value_zero_eq _ _ H) as <-.
  induction m as [|[k0 v0] m IH]; simpl.
  - rewrite H. reflexivity.
  - destruct (same_value_zero k0 k) eqn:E; simpl; rewrite E; [reflexivity|exact IH].
Qed.

Lemma map_get_set_other (k k' : value) (x : obj) (m : jsmap) :
  same_value_zero k k' = false -> map_get (map_set k x m) k' = map_get m k'.
Proof.
  intros H. induction m as [|[k0 v0] m IH]; simpl.
  - rewrite H. reflexivity.
  - destruct (same_value_zero k0 k) eqn:E; simpl.
    + apply same_value_zero_eq in E. subst k0. rewrite H. reflexivity.
    + rewrite IH. reflexivity.
Qed.

Lemma map_get_object (m : jsmap) (k : value) :
  is_primitive k = false -> map_get m k = None.
Proof.
  intros H. induction m as [|[k0 v0] m IH]; simpl; [reflexivity|].
  rewrite same_value_zero_object by assumption. exact IH.
Qed.

Lemma map_get_In (m : jsmap) (k : value) (x : obj) :
  map_get m k = Some x -> In (k, x) m.
Proof.
  induction m as [|[k0 v0] m IH]; simpl; [discriminate|].
  destruct (same_value_zero k0 k) eqn:E.
  - intros [= <-]. apply same_value_zero_eq in E. subst. left. reflexivity.
  - intros H. right. apply IH, H.
Qed.

Lemma In_map_set (k k0 : value) (x x0 : obj) (m : jsmap) :
  In (k, x) (map_set k0 x0 m) -> In (k, x) m \/ (k = k0 /\ x = x0).
Proof.
  induction m as [|[k1 v1] m IH]; simpl.
  - intros [[= <- <-]|[]]. right. split; reflexivity.
  - destruct (same_value_zero k1 k0) eqn:E; simpl.
    + intros [[= <- <-]|H].
      * right. split; [apply same_value_zero_eq, E|reflexivity].
      * left. right. exact H.
    + intros [H|H]; [left; left; exact H|].
      destruct (IH H) as [H'|H']; [left; right; exact H'|right; exact H'].
Qed.

Lemma keys_map_set (k0 : value) (x0 : obj) (m : jsmap) :
  map fst (map_set k0 x0 m) = map fst m \/
  (map fst (map_set k0 x0 m) = (map fst m ++ [k0])%list /\
   forall k, In k (map fst m) -> same_value_zero k k0 = false).
Proof.
  induction m as [|[k1 v1] m IH]; simpl.
  - right. split; [reflexivity|]. intros k [].
  - destruct (same_value_zero k1 k0) eqn:E; simpl.
    + left. reflexivity.
    + destruct IH as [IH|[IH1 IH2]].
      * left. rewrite IH. reflexivity.
      * right. split; [rewrite IH1; reflexivity|].
        intros k [<-|Hk]; [exact E|apply IH2, Hk].
Qed.

Lemma In_keys_map_set (k0 : value) (x0 : obj) (m : jsmap) :
  In k0 (map fst (map_set k0 x0 m)).
Proof.
  induction m as [|[k1 v1] m IH]; simpl.
  - left. reflexivity.
  - destruct (same_value_zero k1 k0) eqn:E; simpl.
    + left. apply same_value_zero_eq, E.
    + right. exact IH.
Qed.

Lemma In_keys_map_set_inv (k k0 : value) (x0 : obj) (m : jsmap) :
  In k (map fst (map_set k0 x0 m)) -> In k (map fst m) \/ k = k0.
Proof.
  destruct (keys_map_set k0 x0 m) as [->|[-> _]]; [auto|].
  intros H. apply in_app_or in H as [H|[<-|[]]]; auto.
Qed.

Lemma keys_map_set_incl (k k0 : value) (x0 : obj) (m : jsmap) :
  In k (map fst m) -> In k (map fst (map_set k0 x0 m)).
Proof.
  intros H. destruct (keys_map_set k0 x0 m) as [->|[-> _]]; [exact H|].
  apply in_or_app. left. exact H.
Qed.

Lemma set_has_add (k i : value) (s : jsset) :
  set_has (set_add k s) i = same_value_zero i k || set_has s i.
Proof.
  unfold set_add. destruct (set_has s k) eqn:E.
  - destruct (same_value_zero i k) eqn:E'; [|reflexivity].
    apply same_value_zero_eq in E'. subst. simpl. exact E.
  - unfold set_has. rewrite existsb_app. simpl.
    rewrite orb_false_r. apply orb_comm.
Qed.

(** ** The seeded map and the id set of a prior snapshot *)

Lemma fold_left_snoc {A B} (f : A -> B -> A) (l : list B) (b : B) (a : A) :
  fold_left f (l ++ [b]) a = f (fold_left f l a) b.
Proof. rewrite fold_left_app. reflexivity. Qed.

Lemma set_has_fold (l : list obj) (i : value) :
  set_has (fold_left (fun s v => set_add (get v "id") s) l []) i
  = existsb (fun e => same_value_zero (vod_id e) i) l.
Proof.
  induction l as [|e l IH] using rev_ind; [reflexivity|].
  rewrite fold_left_snoc, set_has_add, IH, existsb_app. simpl.
  rewrite orb_false_r, same_value_zero_sym. apply orb_comm.
Qed.

Lemma set_has_byIdSet (existing : option Store) (i : value) :
  set_has (byIdSet existing) i
  = existsb (fun e => same_value_zero (vod_id e) i) (existing_vods existing).
Proof. apply set_has_fold. Qed.

Lemma map_get_seed_snoc (l : list obj) (e : obj) (i : value) :
  map_get (fold_left (fun m v => map_set (get v "id") v m) (l ++ [e]) []) i
  = if same_value_zero (vod_id e) i then Some e
    else map_get (fold_left (fun m v => map_set (get v "id") v m) l []) i.
Proof.
  rewrite fold_left_snoc.
  destruct (same_value_zero (vod_id e) i) eqn:E.
  - apply map_get_set_same, E.
  - apply map_get_set_other, E.
Qed.

(** An id is in the set exactly when the seeded map has an entry for it. *)
Lemma seen_iff_seeded (existing : option Store) (i : value) :
  set_has (byIdSet existing) i = true <-> map_get (seed existing) i <> None.
Proof.
  rewrite set_has_byIdSet. unfold seed.
  induction (existing_vods existing) as [|e l IH] using rev_ind.
  - simpl. split; [discriminate|congruence].
  - rewrite map_get_seed_snoc, existsb_app. simpl. rewrite orb_false_r.
    destruct (same_value_zero (vod_id e) i).
    + rewrite orb_true_r. split; [discriminate|reflexivity].
    + rewrite orb_false_r. exact IH.
Qed.

(** With pairwise distinct primitive ids the map holds every prior entry
    under its id. *)
Lemma map_get_seed_In (existing : option Store) (e : obj) :
  NoDup (map vod_id (existing_vods existing)) ->
  In e (existing_vods existing) ->
  is_primitive (vod_id e) = true ->
  map_get (seed existing) (vod_id e) = Some e.
Proof.
  unfold seed. induction (existing_vods existing) as [|e' l IH] using rev_ind.
  - intros _ [].
  - intros Hnd Hin Hprim. rewrite map_get_seed_snoc.
    rewrite map_app in Hnd. simpl in Hnd.
    apply in_app_or in Hin as [Hin|[<-|[]]].
    + destruct (same_value_zero (vod_id e') (vod_id e)) eqn:E.
      * apply same_value_zero_eq in E. exfalso.
        apply NoDup_remove_2 in Hnd. apply Hnd. rewrite app_nil_r.
        rewrite E. apply in_map, Hin.
      * apply IH; try assumption.
        apply NoDup_remove_1 in Hnd. rewrite app_nil_r in Hnd. exact Hnd.
    + rewrite same_value_zero_refl by assumption. reflexivity.
Qed.

Lemma map_get_seed_None (existing : option Store) (i : value) :
  (forall e, In e (existing_vods existing) -> vod_id e <> i) ->
  map_get (seed existing) i = None.
Proof.
  intros H. destruct (map_get (seed existing) i) as [x|] eqn:E; [|reflexivity].
  exfalso.
  assert (Hs : set_has (byIdSet existing) i = true)
    by (apply seen_iff_seeded; congruence).
  rewrite set_has_byIdSet in Hs.
  apply existsb_exists in Hs as (e & Hin & Hsvz).
  apply same_value_zero_eq in Hsvz. exact (H e Hin Hsvz).
Qed.

Lemma map_get_seed_Some (existing : option Store) (i : value) (x : obj) :
  map_get (seed existing) i = Some x ->
  In x (existing_vods existing) /\ vod_id x = i.
Proof.
  unfold seed. induction (existing_vods existing) as [|e l IH] using rev_ind.
  - discriminate.
  - rewrite map_get_seed_snoc.
    destruct (same_value_zero (vod_id e) i) eqn:E.
    + intros [= <-]. split; [apply in_or_app; right; left; reflexivity|].
      apply same_value_zero_eq, E.
    + intros H. destruct (IH H) as [Hin Hid]. split; [|exact Hid].
      apply in_or_app. left. exact Hin.
Qed.

(* ------------------------------------------------------------------ *)
(** ** The merge loop *)

Lemma bind_Done {A B} (m : outcome A) (f : A -> outcome B) (b : B) :
  bind m f = Done b -> exists a, m = Done a /\ f a = Done b.
Proof. destruct m; simpl; try discriminate. eauto. Qed.

Lemma foldM_snoc {A S} (f : S -> A -> outcome S) (l : list A) (a : A) (s : S) :
  foldM f (l ++ [a]) s = bind (foldM f l s) (fun s' => f s' a).
Proof.
  revert s. induction l as [|x l IH]; simpl; intros s.
  - destruct (f s a); reflexivity.
  - destruct (f s x); simpl; [apply IH|reflexivity|reflexivity].
Qed.

Lemma needsFileInfo_ext (x e : obj) :
  get x "files" = get e "files" ->
  get x "filesFetchedAt" = get e "filesFetchedAt" ->
  needsFileInfo (Some x) = needsFileInfo (Some e).
Proof. intros H1 H2. unfold needsFileInfo. rewrite H1, H2. reflexivity. Qed.

Lemma merge_step_Done (w : world) (seen : jsset) (st st' : merge_state) (v : obj) :
  merge_step w seen st v = Done st' -> step_result w seen st v st'.
Proof.
  unfold merge_step. fold (vod_id v).
  destruct (needsFileInfo (map_get (mergedById st) (vod_id v))
            || negb (set_has seen (vod_id v))) eqn:E.
  - intros H. apply bind_Done in H as (raw & Hraw & H).
    apply bind_Done in H as (files & Hfiles & H). injection H as <-.
    apply (step_fetch _ _ _ _ _ files); simpl; try reflexivity; try assumption.
    unfold stored_files. rewrite Hraw. simpl. exact Hfiles.
  - apply orb_false_iff in E as [E1 E2]. apply negb_false_iff in E2.
    destruct (map_get (mergedById st) (vod_id v)) as [old|] eqn:Eold;
      [|discriminate].
    intros [= <-].
    apply (step_keep _ _ _ _ _ old); simpl; rewrite ?Eold;
      try reflexivity; assumption.
Qed.



Lemma vod_id_withFiles (old : option obj) (v : obj) (files : list obj) (now : string) :
  normalized v -> vod_id (withFiles old v files now) = vod_id v.
Proof.
  intros Hv. unfold vod_id, withFiles.
  rewrite !get_assign_other by discriminate.
  rewrite get_spread_normalized by assumption.
  destruct Hv as (a & b & c & d & e & f & ->). reflexivity.
Qed.

Lemma vod_id_keepFiles (old v : obj) :
  normalized v -> vod_id (keepFiles old v) = vod_id v.
Proof.
  intros Hv. unfold vod_id, keepFiles.
  rewrite !get_assign_other by discriminate.
  rewrite get_spread_normalized by assumption.
  destruct Hv as (a & b & c & d & e & f & ->). reflexivity.
Qed.

Lemma has_recorded_withFiles (old : option obj) (v : obj) (files : list obj)
    (now : string) :
  normalized v ->
  has_key (withFiles old v files now) "recorded_at"
  = match old with Some o => has_key o "recorded_at" | None => false end.
Proof.
  intros Hv. unfold withFiles. rewrite !has_key_assign, has_key_spread.
  destruct (normalized_no_files _ Hv) as (_ & _ & ->).
  destruct old as [o|]; simpl.
  - rewrite has_key_spread. simpl. rewrite orb_false_r. reflexivity.
  - reflexivity.
Qed.

Lemma has_recorded_keepFiles (old v : obj) :
  normalized v ->
  has_key (keepFiles old v) "recorded_at" = has_key old "recorded_at".
Proof.
  intros Hv. unfold keepFiles. rewrite !has_key_assign, !has_key_spread.
  destruct (normalized_no_files _ Hv) as (_ & _ & ->).
  simpl. rewrite orb_false_r. reflexivity.
Qed.

Lemma seed_keys_prior (existing : option Store) (k : value) :
  In k (map fst (seed existing)) ->
  exists e, In e (existing_vods existing) /\ vod_id e = k.
Proof.
  unfold seed. induction (existing_vods existing) as [|e l IH] using rev_ind.
  - intros [].
  - rewrite fold_left_snoc. intros H.
    destruct (keys_map_set (get e "id") e
                (fold_left (fun m v => map_set (get v "id") v m) l []))
      as [E|[E _]]; rewrite E in H.
    + destruct (IH H) as (e' & Hin & Hid). exists e'. split; [|exact Hid].
      apply in_or_app. left. exact Hin.
    + apply in_app_or in H as [H|[<-|[]]].
      * destruct (IH H) as (e' & Hin & Hid). exists e'. split; [|exact Hid].
        apply in_or_app. left. exact Hin.
      * exists e. split; [apply in_or_app; right; left|]; reflexivity.
Qed.

Lemma prior_keys_seed (existing : option Store) (e : obj) :
  In e (existing_vods existing) -> In (vod_id e) (map fst (seed existing)).
Proof.
  unfold seed. induction (existing_vods existing) as [|e' l IH] using rev_ind.
  - intros [].
  - rewrite fold_left_snoc. intros H. apply in_app_or in H as [H|[<-|[]]].
    + apply keys_map_set_incl, IH, H.
    + apply In_keys_map_set.
Qed.

Lemma seed_ids (existing : option Store) (k : value) (x : obj) :
  In (k, x) (seed existing) -> vod_id x = k.
Proof.
  unfold seed. induction (existing_vods existing) as [|e l IH] using rev_ind.
  - intros [].
  - rewrite fold_left_snoc. intros H.
    apply In_map_set in H as [H|[-> ->]]; [apply IH, H|reflexivity].
Qed.

Section MergeLoop.

Variable w : world.
Variable existing : option Store.

Let seen : jsset := byIdSet existing.

Lemma must_fetch_false (i : value) :
  must_fetch existing i = false ->
  exists e, map_get (seed existing) i = Some e /\
            needsFileInfo (Some e) = false /\
            set_has seen i = true.
Proof.
  unfold must_fetch. intros H. apply orb_false_iff in H as [H1 H2].
  apply negb_false_iff in H2.
  destruct (map_get (seed existing) i) as [e|]; [|discriminate].
  exists e. auto.
Qed.

Lemma must_fetch_object (i : value) :
  is_primitive i = false -> must_fetch existing i = true.
Proof.
  intros H. unfold must_fetch. rewrite map_get_object by assumption. reflexivity.
Qed.

Lemma loop_inv_init : loop_inv existing [] (merge_init existing).
Proof.
  constructor; simpl.
  - reflexivity.
  - intros i [].
  - intros v [].
  - intros i H. split; [intros []|].
    destruct (must_fetch_false i H) as (e & He & _). exists e, e. auto.
  - apply seed_ids.
  - auto.
  - intros k x H. left. apply (in_map fst) in H. exact H.
Qed.

Lemma loop_inv_step (pre : list obj) (st st' : merge_state) (v : obj) :
  normalized v ->
  loop_inv existing pre st ->
  step_result w seen st v st' ->
  loop_inv existing (pre ++ [v]) st'.
Proof.
  intros Hv Inv Hstep.
  assert (Hother : forall i x, same_value_zero (vod_id v) i = false ->
            map_get (map_set (vod_id v) x (mergedById st)) i
            = map_get (mergedById st) i)
    by (intros; apply map_get_set_other; assumption).
  assert (Hsplit : forall i,
            existsb (fun v => same_value_zero (vod_id v) i) (pre ++ [v]) = false ->
            existsb (fun v => same_value_zero (vod_id v) i) pre = false /\
            same_value_zero (vod_id v) i = false).
  { intros i H. rewrite existsb_app in H. simpl in H.
    rewrite orb_false_r in H. apply orb_false_iff in H. exact H. }
  destruct Hstep as [files Hmust Hfiles HM Hclock Hfetched
                    |old Hneeds Hseen Hold HM Hclock Hfetched].
  - (* the entry is fetched *)
    constructor.
    + intros i H. destruct (Hsplit i H) as [H1 H2].
      rewrite HM, Hother by assumption. apply (inv_unlisted _ _ _ Inv), H1.
    + intros i H. rewrite Hfetched in H. apply in_app_or in H as [H|[<-|[]]].
      * destruct (inv_fetched_listed _ _ _ Inv i H) as (v' & Hin & Hid).
        exists v'. split; [apply in_or_app; left; exact Hin|exact Hid].
      * exists v. split; [apply in_or_app; right; left|]; reflexivity.
    + intros v' Hin Hm. rewrite Hfetched. apply in_or_app.
      apply in_app_or in Hin as [Hin|[<-|[]]].
      * left. apply (inv_fetch_done _ _ _ Inv); assumption.
      * right. left. reflexivity.
    + intros i Hi.
      destruct (inv_fresh _ _ _ Inv i Hi) as (Hnot & e & x & He & Hx & Hxf & Hxt).
      destruct (must_fetch_false i Hi) as (e' & He' & Hne & Hs).
      assert (Hneq : same_value_zero (vod_id v) i = false).
      { destruct (same_value_zero (vod_id v) i) eqn:E; [|reflexivity].
        apply same_value_zero_eq in E. subst i.
        rewrite Hx in Hmust. fold seen in Hmust. rewrite Hs in Hmust.
        rewrite (needsFileInfo_ext _ _ Hxf Hxt) in Hmust.
        rewrite He in He'. injection He' as <-.
        rewrite Hne in Hmust. discriminate. }
      split.
      * rewrite Hfetched. intros H. apply in_app_or in H as [H|[<-|[]]];
          [exact (Hnot H)|].
        destruct (is_primitive (vod_id v)) eqn:Ep.
        -- rewrite same_value_zero_refl in Hneq by assumption. discriminate.
        -- rewrite must_fetch_object in Hi by assumption. discriminate.
      * exists e, x. rewrite HM, Hother by assumption. auto.
    + intros k x H. rewrite HM in H.
      apply In_map_set in H as [H|[-> ->]]; [apply (inv_ids _ _ _ Inv), H|].
      apply vod_id_withFiles, Hv.
    + intros k H. rewrite HM. apply keys_map_set_incl, (inv_keys _ _ _ Inv), H.
    + intros k x H. rewrite HM in H.
      apply In_map_set in H as [H|[-> ->]]; [apply (inv_recorded _ _ _ Inv), H|].
      rewrite has_recorded_withFiles by assumption.
      destruct (map_get (mergedById st) (vod_id v)) as [o|] eqn:Eo;
        [|right; reflexivity].
      apply map_get_In in Eo. apply (inv_recorded _ _ _ Inv), Eo.
  - (* the files are kept *)
    constructor.
    + intros i H. destruct (Hsplit i H) as [H1 H2].
      rewrite HM, Hother by assumption. apply (inv_unlisted _ _ _ Inv), H1.
    + intros i H. rewrite Hfetched in H.
      destruct (inv_fetched_listed _ _ _ Inv i H) as (v' & Hin & Hid).
      exists v'. split; [apply in_or_app; left; exact Hin|exact Hid].
    + intros v' Hin Hm. rewrite Hfetched.
      apply in_app_or in Hin as [Hin|[<-|[]]];
        [apply (inv_fetch_done _ _ _ Inv); assumption|].
      destruct (existsb (fun v0 => same_value_zero (vod_id v0) (vod_id v)) pre)
        eqn:E.
      * apply existsb_exists in E as (v'' & Hin & Hsv).
        apply same_value_zero_eq in Hsv. rewrite <- Hsv.
        apply (inv_fetch_done _ _ _ Inv); [exact Hin|]. rewrite Hsv. exact Hm.
      * exfalso. pose proof (inv_unlisted _ _ _ Inv _ E) as Hsame.
        unfold must_fetch in Hm. rewrite <- Hsame, Hneeds in Hm.
        fold seen in Hm. rewrite Hseen in Hm. discriminate.
    + intros i Hi.
      destruct (inv_fresh _ _ _ Inv i Hi) as (Hnot & e & x & He & Hx & Hxf & Hxt).
      split; [rewrite Hfetched; exact Hnot|].
      destruct (same_value_zero (vod_id v) i) eqn:E.
      * pose proof (same_value_zero_eq _ _ E) as <-.
        exists e, (keepFiles old v). rewrite HM, map_get_set_same by assumption.
        rewrite Hold in Hx. injection Hx as <-.
        unfold keepFiles. rewrite get_assign_same.
        rewrite get_assign_other, get_assign_same by discriminate. auto.
      * exists e, x. rewrite HM, Hother by assumption. auto.
    + intros k x H. rewrite HM in H.
      apply In_map_set in H as [H|[-> ->]]; [apply (inv_ids _ _ _ Inv), H|].
      apply vod_id_keepFiles, Hv.
    + intros k H. rewrite HM. apply keys_map_set_incl, (inv_keys _ _ _ Inv), H.
    + intros k x H. rewrite HM in H.
      apply In_map_set in H as [H|[-> ->]]; [apply (inv_recorded _ _ _ Inv), H|].
      rewrite has_recorded_keepFiles by assumption.
      apply map_get_In in Hold. apply (inv_recorded _ _ _ Inv), Hold.
Qed.

(** A completed loop satisfies the invariant for the whole listing. *)
Lemma merge_loop_inv (all : list obj) (st : merge_state) :
  Forall normalized all ->
  merge_loop w existing all = Done st ->
  loop_inv existing all st.
Proof.
  unfold merge_loop. fold (merge_init existing). fold seen.
  revert st. induction all as [|v pre IH] using rev_ind; intros st Hn H.
  - simpl in H. injection H as <-. apply loop_inv_init.
  - rewrite foldM_snoc in H. apply bind_Done in H as (st0 & H0 & H).
    apply Forall_app in Hn as [Hpre Hv]. inversion Hv; subst.
    apply (loop_inv_step pre st0); [assumption|apply IH; assumption|].
    apply merge_step_Done, H.
Qed.

End MergeLoop.

(* ------------------------------------------------------------------ *)
(** ** Distinct keys *)

Lemma distinct_keys_map_set (k0 : value) (x0 : obj) (m : jsmap) :
  distinct_keys m -> distinct_keys (map_set k0 x0 m).
Proof.
  induction m as [|[k1 v1] m IH]; simpl.
  - intros _. split; [intros k' []|exact I].
  - intros [H1 H2]. destruct (same_value_zero k1 k0) eqn:E; simpl.
    + split; assumption.
    + split; [|apply IH, H2].
      intros k' Hk'.
      destruct (keys_map_set k0 x0 m) as [Eq|[Eq _]]; rewrite Eq in Hk'.
      * apply H1, Hk'.
      * apply in_app_or in Hk' as [Hk'|[<-|[]]]; [apply H1, Hk'|exact E].
Qed.

Lemma distinct_keys_seed (existing : option Store) : distinct_keys (seed existing).
Proof.
  unfold seed. induction (existing_vods existing) as [|e l IH] using rev_ind.
  - exact I.
  - rewrite fold_left_snoc. apply distinct_keys_map_set, IH.
Qed.

Lemma distinct_keys_get (m : jsmap) (k : value) (x : obj) :
  distinct_keys m -> In (k, x) m -> is_primitive k = true ->
  map_get m k = Some x.
Proof.
  induction m as [|[k1 v1] m IH]; simpl; [intros _ []|].
  intros [H1 H2] [[= -> ->]|Hin] Hp.
  - rewrite same_value_zero_refl by assumption. reflexivity.
  - rewrite H1 by (apply (in_map fst) in Hin; exact Hin).
    apply IH; assumption.
Qed.

Lemma distinct_keys_NoDup (m : jsmap) :
  distinct_keys m -> Forall (fun k => is_primitive k = true) (map fst m) ->
  NoDup (map fst m).
Proof.
  induction m as [|[k1 v1] m IH]; simpl; intros H Hp; [constructor|].
  destruct H as [H1 H2]. inversion Hp as [|? ? Hk Hp']; subst.
  constructor; [|apply IH; assumption].
  intros Hin. specialize (H1 _ Hin).
  rewrite same_value_zero_refl in H1 by assumption. discriminate.
Qed.

Lemma merge_loop_distinct (w : world) (existing : option Store) (all : list obj)
    (st : merge_state) :
  merge_loop w existing all = Done st -> distinct_keys (mergedById st).
Proof.
  unfold merge_loop. revert st.
  induction all as [|v pre IH] using rev_ind; intros st H.
  - simpl in H. injection H as <-. apply distinct_keys_seed.
  - rewrite foldM_snoc in H. apply bind_Done in H as (st0 & H0 & H).
    apply merge_step_Done in H. specialize (IH _ H0).
    destruct H as [files _ _ HM _ _|old _ _ _ HM _ _]; rewrite HM;
      apply distinct_keys_map_set, IH.
Qed.

Lemma merge_loop_keys (w : world) (existing : option Store) (all : list obj)
    (st : merge_state) :
  merge_loop w existing all = Done st ->
  forall k, In k (map fst (mergedById st)) ->
    In k (map vod_id (existing_vods existing)) \/ In k (map vod_id all).
Proof.
  unfold merge_loop. revert st.
  induction all as [|v pre IH] using rev_ind; intros st H k Hk.
  - simpl in H. injection H as <-. simpl in Hk. left.
    destruct (seed_keys_prior _ _ Hk) as (e & Hin & <-). apply in_map, Hin.
  - rewrite foldM_snoc in H. apply bind_Done in H as (st0 & H0 & H).
    apply merge_step_Done in H. specialize (IH _ H0 k).
    rewrite map_app, in_app_iff. simpl.
    assert (Hkeys : In k (map fst (mergedById st0)) \/ k = vod_id v).
    { destruct H as [files _ _ HM _ _|old _ _ _ HM _ _]; rewrite HM in Hk;
        apply In_keys_map_set_inv in Hk; exact Hk. }
    destruct Hkeys as [Hk'|Hk']; [|subst k; right; right; left; reflexivity].
    destruct (IH Hk'); [left|right; left]; assumption.
Qed.

(* ------------------------------------------------------------------ *)
(** ** Sorting *)

Lemma sort_insert_perm {A} (cmp : A -> A -> option Z) (x : A) (l : list A) :
  Permutation (sort_insert cmp x l) (x :: l).
Proof.
  induction l as [|y l IH]; simpl; [reflexivity|].
  destruct (sorts_after (cmp x y)); [|reflexivity].
  rewrite IH. apply perm_swap.
Qed.

Lemma js_sort_perm {A} (cmp : A -> A -> option Z) (l : list A) :
  Permutation (js_sort cmp l) l.
Proof.
  induction l as [|x l IH]; simpl; [reflexivity|].
  rewrite sort_insert_perm. constructor. exact IH.
Qed.

Lemma js_sort_In {A} (cmp : A -> A -> option Z) (l : list A) (x : A) :
  In x (js_sort cmp l) <-> In x l.
Proof.
  split; apply Permutation_in; [|symmetry]; apply js_sort_perm.
Qed.

(* ------------------------------------------------------------------ *)
(** ** Shape of a completed run *)

Lemma push_normalized_ok (items : list value) (acc all : list obj) :
  Forall normalized acc ->
  foldM push_normalized items acc = Done all ->
  Forall normalized all.
Proof.
  revert acc. induction items as [|raw items IH]; simpl; intros acc Hacc H.
  - injection H as <-. exact Hacc.
  - apply bind_Done in H as (acc' & Hpush & H). apply (IH acc'); [|exact H].
    unfold push_normalized in Hpush.
    apply bind_Done in Hpush as (sv & Hsv & Hpush).
    destruct sv as [o|]; injection Hpush as <-; [|exact Hacc].
    apply Forall_app. split; [exact Hacc|]. constructor; [|constructor].
    apply (normalizeVod_normalized raw), Hsv.
Qed.

Lemma fetchAllPages_normalized (w : world) (limit : option Z) (tu : value)
    (fuel : nat) (page : Z) (acc all : list obj) (pages : Z) :
  Forall normalized acc ->
  fetchAllPages w limit tu fuel page acc = Done (all, pages) ->
  Forall normalized all.
Proof.
  revert page acc. induction fuel as [|fuel IH]; simpl; intros page acc Hacc H;
    [discriminate|].
  apply bind_Done in H as (list & _ & H).
  apply bind_Done in H as (data & _ & H).
  destruct data as [| | | | |[|item items]|]; try (injection H as <- _; exact Hacc).
  apply bind_Done in H as (acc' & Hpush & H).
  pose proof (push_normalized_ok _ _ _ Hacc Hpush) as Hacc'.
  destruct (below_limit _ _).
  - injection H as <- _. exact Hacc'.
  - apply (IH _ _ Hacc' H).
Qed.

Lemma main_Done (cfg : config) (w : world) (fuel : nat) (s : Store)
    (tr : list request) :
  main cfg w fuel = Done (s, tr) ->
  exists user all pages st,
    login cfg w = Done user /\
    fetchAllPages w (PAGE_LIMIT cfg) (prop user "username") fuel 1 []
      = Done (all, pages) /\
    Forall normalized all /\
    merge_loop w (stored w) all = Done st /\
    s = build_store cfg w (prop user "username") st /\
    forall id, In (ReqFileInfo id) tr <-> In id (fetched st).
Proof.
  unfold main. intros H.
  apply bind_Done in H as ([] & _ & H).
  apply bind_Done in H as (user & Hlogin & H).
  apply bind_Done in H as ([all pages] & Hlist & H).
  apply bind_Done in H as (st & Hloop & H).
  injection H as <- <-. exists user, all, pages, st.
  repeat split; try assumption.
  - apply (fetchAllPages_normalized _ _ _ _ _ _ _ _ (Forall_nil _) Hlist).
  - simpl. intros [H|[H|H]]; try discriminate.
    apply in_app_or in H as [H|H].
    + exfalso. induction (Z.to_nat pages) as [|n IH]; simpl in H;
        [exact H|]. destruct H as [H|H]; [discriminate|exact (IH H)].
    + apply in_map_iff in H as (i & [= ->] & Hi). exact Hi.
  - intros H. simpl. right. right. apply in_or_app. right.
    apply in_map, H.
Qed.

Lemma build_store_In (cfg : config) (w : world) (tu : value) (st : merge_state)
    (e : obj) :
  In e (vods (build_store cfg w tu st)) <-> In e (map_values (mergedById st)).
Proof. unfold build_store. simpl. apply js_sort_In. Qed.

(* ------------------------------------------------------------------ *)
(** ** The fetch decision *)

Lemma needsFileInfo_typed (e : obj) :
  typed_vod e = true ->
  needsFileInfo (Some e) = files_missing_or_empty e || lacks_timestamp e.
Proof.
  unfold typed_vod, needsFileInfo, files_missing_or_empty, lacks_timestamp.
  intros H. apply andb_true_iff in H as [H Ht]. apply andb_true_iff in H as [_ Hf].
  destruct (get e "files") as [| | | | |l|]; try discriminate; simpl.
  - reflexivity.
  - destruct l as [|x l]; [reflexivity|].
    replace (strict_eq_prim (VNum (Z.of_nat (List.length (x :: l)))) (VNum 0))
      with false by reflexivity.
    destruct (get e "filesFetchedAt"); try discriminate; simpl; try reflexivity.
    destruct (s =? "")%string; reflexivity.
Qed.

Lemma must_fetch_typed (existing : option Store) (i : value) :
  forallb typed_vod (existing_vods existing) = true ->
  NoDup (map vod_id (existing_vods existing)) ->
  must_fetch existing i = true <->
  (forall e, In e (existing_vods existing) -> vod_id e <> i) \/
  (exists e, In e (existing_vods existing) /\ vod_id e = i /\
     (files_missing_or_empty e = true \/
      (files_missing_or_empty e = false /\ lacks_timestamp e = true))).
Proof.
  intros Ht Hnd. rewrite forallb_forall in Ht.
  assert (Hprim : forall e, In e (existing_vods existing) ->
                            is_primitive (vod_id e) = true).
  { intros e He. specialize (Ht e He). unfold typed_vod in Ht.
    apply andb_true_iff in Ht as [Ht _]. apply andb_true_iff in Ht as [Ht _].
    exact Ht. }
  unfold must_fetch. split.
  - intros H. destruct (map_get (seed existing) i) as [e|] eqn:E.
    + destruct (map_get_seed_Some _ _ _ E) as [Hin Hid].
      assert (Hs : set_has (byIdSet existing) i = true)
        by (apply seen_iff_seeded; congruence).
      rewrite Hs, orb_false_r, needsFileInfo_typed in H by (apply Ht, Hin).
      right. exists e. repeat split; try assumption.
      destruct (files_missing_or_empty e); [left; reflexivity|right].
      split; [reflexivity|exact H].
    + left. intros e He Hid. subst i.
      rewrite map_get_seed_In in E by auto. discriminate.
  - intros [H|(e & Hin & Hid & H)].
    + rewrite map_get_seed_None by assumption. reflexivity.
    + subst i. rewrite map_get_seed_In by auto.
      rewrite needsFileInfo_typed by (apply Ht, Hin).
      destruct H as [->|[-> ->]]; reflexivity.
Qed.

(** C1: for every listed entry, a [file_info] request is issued exactly
    when the prior snapshot has no entry with that id, or the prior entry's
    file list is missing or empty, or it has files but lacks a
    [filesFetchedAt] timestamp.  The prior snapshot is typed as [StoredVod]
    declares and its ids are pairwise distinct. *)
Theorem fetch_issued_iff (cfg : config) (w : world) (fuel : nat) (s : Store)
    (tr : list request) (user : value) (all : list obj) (pages : Z) :
  main cfg w fuel = Done (s, tr) ->
  login cfg w = Done user ->
  fetchAllPages w (PAGE_LIMIT cfg) (prop user "username") fuel 1 []
    = Done (all, pages) ->
  forallb typed_vod (existing_vods (stored w)) = true ->
  NoDup (map vod_id (existing_vods (stored w))) ->
  forall v, In v all ->
    (In (ReqFileInfo (vod_id v)) tr <->
     (forall e, In e (existing_vods (stored w)) -> vod_id e <> vod_id v) \/
     (exists e, In e (existing_vods (stored w)) /\ vod_id e = vod_id v /\
        (files_missing_or_empty e = true \/
         (files_missing_or_empty e = false /\ lacks_timestamp e = true)))).
Proof.
  intros Hmain Hlogin Hlist Ht Hnd v Hv.
  apply main_Done in Hmain
    as (user' & all' & pages' & st & Hlogin' & Hlist' & Hn & Hloop & _ & Htr).
  rewrite Hlogin in Hlogin'. injection Hlogin' as <-.
  rewrite Hlist in Hlist'. injection Hlist' as <- <-.
  pose proof (merge_loop_inv _ _ _ _ Hn Hloop) as Inv.
  rewrite Htr, <- (must_fetch_typed _ _ Ht Hnd). split.
  - intros Hin. destruct (must_fetch (stored w) (vod_id v)) eqn:E; [reflexivity|].
    exfalso. apply (inv_fresh _ _ _ Inv _ E), Hin.
  - apply (inv_fetch_done _ _ _ Inv), Hv.
Qed.

Lemma fetch_issued_iff_witness :
  In (ReqFileInfo (VStr "2")) (run_trace (main cfg_plain w_mixed 2)) <->
  (forall e, In e [fresh1; empty2; unstamped3] -> vod_id e <> VStr "2") \/
  (exists e, In e [fresh1; empty2; unstamped3] /\ vod_id e = VStr "2" /\
     (files_missing_or_empty e = true \/
      (files_missing_or_empty e = false /\ lacks_timestamp e = true))).
Proof.
  refine (fetch_issued_iff cfg_plain w_mixed 2 _ _ _ all_1234 1
            eq_refl eq_refl eq_refl eq_refl _
            (normalized_entry "2" "two" VUndef) _).
  - simpl. repeat constructor; simpl; intuition discriminate.
  - simpl. auto.
Defined.

(** C2: an entry of the prior snapshot with a non-empty file list and a
    [filesFetchedAt] value triggers no [file_info] request, whatever the
    listing, and the saved entry with its id has the same [files] and
    [filesFetchedAt]. *)
Theorem fresh_entry_untouched (cfg : config) (w : world) (fuel : nat) (s : Store)
    (tr : list request) (e : obj) :
  main cfg w fuel = Done (s, tr) ->
  NoDup (map vod_id (existing_vods (stored w))) ->
  In e (existing_vods (stored w)) ->
  typed_vod e = true ->
  files_missing_or_empty e = false ->
  lacks_timestamp e = false ->
  ~ In (ReqFileInfo (vod_id e)) tr /\
  (exists e', In e' (vods s) /\ vod_id e' = vod_id e) /\
  (forall e', In e' (vods s) -> vod_id e' = vod_id e ->
     get e' "files" = get e "files" /\
     get e' "filesFetchedAt" = get e "filesFetchedAt").
Proof.
  intros Hmain Hnd Hin Ht Hf Hts.
  apply main_Done in Hmain
    as (user & all & pages & st & _ & _ & Hn & Hloop & -> & Htr).
  pose proof (merge_loop_inv _ _ _ _ Hn Hloop) as Inv.
  pose proof (merge_loop_distinct _ _ _ _ Hloop) as Hdist.
  assert (Hprim : is_primitive (vod_id e) = true).
  { unfold typed_vod in Ht. apply andb_true_iff in Ht as [Ht _].
    apply andb_true_iff in Ht as [Ht _]. exact Ht. }
  assert (Hseed : map_get (seed (stored w)) (vod_id e) = Some e)
    by (apply map_get_seed_In; assumption).
  assert (Hm : must_fetch (stored w) (vod_id e) = false).
  { unfold must_fetch. rewrite Hseed, needsFileInfo_typed, Hf, Hts by assumption.
    simpl. apply negb_false_iff, seen_iff_seeded. congruence. }
  destruct (inv_fresh _ _ _ Inv _ Hm) as (Hnot & e0 & x & He0 & Hx & Hxf & Hxt).
  rewrite Hseed in He0. injection He0 as <-.
  split; [rewrite Htr; exact Hnot|]. split.
  - exists x. split.
    + apply build_store_In. apply map_get_In in Hx.
      apply (in_map snd) in Hx. exact Hx.
    + apply map_get_In in Hx. apply (inv_ids _ _ _ Inv _ _ Hx).
  - intros e' He' Hid. apply build_store_In in He'.
    apply in_map_iff in He' as ([k e''] & Heq & He'). simpl in Heq. subst e''.
    pose proof (inv_ids _ _ _ Inv _ _ He') as Hk. rewrite Hid in Hk. subst k.
    rewrite (distinct_keys_get _ _ _ Hdist He' Hprim) in Hx.
    injection Hx as <-. auto.
Qed.

Lemma fresh_entry_untouched_witness :
  ~ In (ReqFileInfo (VStr "1")) (run_trace (main cfg_plain w_mixed 2)).
Proof.
  refine (proj1 (fresh_entry_untouched cfg_plain w_mixed 2 _ _ fresh1
                   eq_refl _ _ eq_refl eq_refl eq_refl)).
  - simpl. repeat constructor; simpl; intuition discriminate.
  - simpl. auto.
Defined.

(* ------------------------------------------------------------------ *)
(** ** Ids of the saved snapshot *)

Lemma merged_ids_are_keys (m : jsmap) :
  (forall k x, In (k, x) m -> vod_id x = k) ->
  map vod_id (map_values m) = map fst m.
Proof.
  intros H. unfold map_values. rewrite map_map. apply map_ext_in.
  intros [k x] Hin. simpl. apply H, Hin.
Qed.

(** C9: every id of the loaded prior snapshot appears in the saved
    snapshot, and the ids of the saved entries are pairwise distinct (ids
    being primitive values, as [StoredVod] declares). *)
Theorem ids_kept_and_distinct (cfg : config) (w : world) (fuel : nat)
    (s : Store) (tr : list request) :
  main cfg w fuel = Done (s, tr) ->
  (forall e, In e (existing_vods (stored w)) ->
     exists e', In e' (vods s) /\ vod_id e' = vod_id e) /\
  (forall user all pages,
     login cfg w = Done user ->
     fetchAllPages w (PAGE_LIMIT cfg) (prop user "username") fuel 1 []
       = Done (all, pages) ->
     forallb (fun e => is_primitive (vod_id e)) (existing_vods (stored w)) = true ->
     forallb (fun v => is_primitive (vod_id v)) all = true ->
     NoDup (map vod_id (vods s))).
Proof.
  intros Hmain.
  apply main_Done in Hmain
    as (user & all & pages & st & Hlogin & Hlist & Hn & Hloop & -> & _).
  pose proof (merge_loop_inv _ _ _ _ Hn Hloop) as Inv.
  split.
  - intros e He.
    pose proof (inv_keys _ _ _ Inv _ (prior_keys_seed _ _ He)) as Hk.
    apply in_map_iff in Hk as ([k x] & Hfst & Hin). simpl in Hfst. subst k.
    exists x. split.
    + apply build_store_In. apply (in_map snd) in Hin. exact Hin.
    + apply (inv_ids _ _ _ Inv _ _ Hin).
  - intros user' all' pages' Hlogin' Hlist' Hp Hpa.
    rewrite Hlogin in Hlogin'. injection Hlogin' as <-.
    rewrite Hlist in Hlist'. injection Hlist' as <- <-.
    unfold build_store. simpl.
    apply (Permutation_NoDup
             (l := map vod_id (map_values (mergedById st)))).
    { apply Permutation_map. symmetry. apply js_sort_perm. }
    rewrite (merged_ids_are_keys _ (inv_ids _ _ _ Inv)).
    apply distinct_keys_NoDup; [apply (merge_loop_distinct _ _ _ _ Hloop)|].
    apply Forall_forall. intros k Hk.
    rewrite forallb_forall in Hp, Hpa.
    destruct (merge_loop_keys _ _ _ _ Hloop k Hk) as [H|H];
      apply in_map_iff in H as (e & <- & He); auto.
Qed.

Lemma ids_kept_and_distinct_witness :
  NoDup (map vod_id (run_vods (main cfg_plain w_mixed 2))).
Proof.
  refine (proj2 (ids_kept_and_distinct cfg_plain w_mixed 2 _ _ eq_refl)
            _ all_1234 1 eq_refl eq_refl eq_refl eq_refl).
Defined.

(* ------------------------------------------------------------------ *)
(** ** New entries *)


(* ------------------------------------------------------------------ *)
(** ** Order of the saved snapshot *)







(* ------------------------------------------------------------------ *)
(** ** Order of the saved snapshot: undated entries *)


(* ------------------------------------------------------------------ *)
(** ** The sort on dated entries *)














(* ------------------------------------------------------------------ *)
(** ** Position of new entries *)




(* ------------------------------------------------------------------ *)
(** ** JSON round trip *)

(** Induction on values, through arrays and objects. *)
Lemma value_ind' (P : value -> Prop)
    (Hundef : P VUndef) (Hnull : P VNull)
    (Hbool : forall b, P (VBool b)) (Hnum : forall n, P (VNum n))
    (Hstr : forall s, P (VStr s))
    (Harr : forall l, Forall P l -> P (VArr l))
    (Hobj : forall o, Forall (fun kv => P (snd kv)) o -> P (VObj o)) :
  forall v, P v.
Proof.
  fix IH 1. intros [| |b|n|s|l|o].
  - exact Hundef.
  - exact Hnull.
  - apply Hbool.
  - apply Hnum.
  - apply Hstr.
  - apply Harr. induction l as [|x l IHl]; [constructor|].
    constructor; [apply IH|exact IHl].
  - apply Hobj. induction o as [|[k x] o IHo]; [constructor|].
    constructor; [apply IH|exact IHo].
Qed.

Lemma jsonify_VObj (o : obj) : jsonify (VObj o) = VObj (jsonify_obj o).
Proof.
  reflexivity.
Qed.








Lemma jsonify_undef (v : value) : jsonify v = VUndef <-> v = VUndef.
Proof. destruct v; simpl; split; congruence. Qed.




















(* ------------------------------------------------------------------ *)
(** ** What the loop leaves in a listed entry *)

Lemma listed_snoc (pre : list obj) (v : obj) (i : value) :
  listed (pre ++ [v]) i = listed pre i || same_value_zero (vod_id v) i.
Proof. unfold listed. rewrite existsb_app. simpl. rewrite orb_false_r. reflexivity. Qed.

Lemma last_listed_snoc (pre : list obj) (v : obj) (i : value) :
  last_listed (pre ++ [v]) i
  = if same_value_zero (vod_id v) i then Some v else last_listed pre i.
Proof. unfold last_listed. rewrite rev_app_distr. reflexivity. Qed.

Lemma last_listed_Some (all : list obj) (i : value) (v : obj) :
  last_listed all i = Some v -> In v all /\ vod_id v = i /\ listed all i = true.
Proof.
  unfold last_listed, listed. intros H. apply find_some in H as [Hin Hsv].
  apply in_rev in Hin. repeat split; [exact Hin|apply same_value_zero_eq, Hsv|].
  apply existsb_exists. exists v. auto.
Qed.


Lemma get_withFiles_listing (old : option obj) (v : obj) (files : list obj)
    (now k : string) :
  normalized v -> has_key v k = true -> get (withFiles old v files now) k = get v k.
Proof.
  intros Hv Hk. destruct (normalized_no_files _ Hv) as (Hf & Ht & _).
  unfold withFiles. rewrite !get_assign_other by congruence.
  rewrite get_spread_normalized, Hk by assumption. reflexivity.
Qed.

Lemma get_keepFiles_listing (old v : obj) (k : string) :
  normalized v -> has_key v k = true -> get (keepFiles old v) k = get v k.
Proof.
  intros Hv Hk. destruct (normalized_no_files _ Hv) as (Hf & Ht & _).
  unfold keepFiles. rewrite !get_assign_other by congruence.
  rewrite get_spread_normalized, Hk by assumption. reflexivity.
Qed.

Section ListedEntries.

Variable w : world.
Variable existing : option Store.

Let seen : jsset := byIdSet existing.

Lemma listed_inv_step (pre : list obj) (st st' : merge_state) (v : obj) :
  normalized v ->
  listed_inv w pre st ->
  step_result w seen st v st' ->
  listed_inv w (pre ++ [v]) st'.
Proof.
  intros Hv Inv Hstep.
  destruct Hstep as [files Hmust Hfiles HM Hclock Hfetched
                    |old Hneeds Hseen Hold HM Hclock Hfetched].
  - constructor.
    + intros i v'. rewrite last_listed_snoc, HM.
      destruct (same_value_zero (vod_id v) i) eqn:E.
      * intros [= <-]. rewrite map_get_set_same by assumption.
        eexists. split; [reflexivity|].
        intros k Hk. apply get_withFiles_listing; assumption.
      * rewrite map_get_set_other by assumption. apply (inv_last _ _ _ Inv).
    + intros i. rewrite listed_snoc, HM.
      destruct (same_value_zero (vod_id v) i) eqn:E.
      * intros _. rewrite map_get_set_same by assumption.
        apply same_value_zero_eq in E. subst i.
        eexists. split; [reflexivity|]. right.
        exists files, (clock_reads st). unfold withFiles.
        rewrite get_assign_same, get_assign_other, get_assign_same by discriminate.
        auto.
      * rewrite orb_false_r, map_get_set_other by assumption.
        apply (inv_listed _ _ _ Inv).
  - constructor.
    + intros i v'. rewrite last_listed_snoc, HM.
      destruct (same_value_zero (vod_id v) i) eqn:E.
      * intros [= <-]. rewrite map_get_set_same by assumption.
        eexists. split; [reflexivity|].
        intros k Hk. apply get_keepFiles_listing; assumption.
      * rewrite map_get_set_other by assumption. apply (inv_last _ _ _ Inv).
    + intros i. rewrite listed_snoc, HM.
      destruct (same_value_zero (vod_id v) i) eqn:E.
      * intros _. rewrite map_get_set_same by assumption.
        eexists. split; [reflexivity|]. left.
        rewrite <- Hneeds, Hold. apply needsFileInfo_ext; unfold keepFiles.
        -- rewrite get_assign_other, get_assign_same by discriminate. reflexivity.
        -- rewrite get_assign_same. reflexivity.
      * rewrite orb_false_r, map_get_set_other by assumption.
        apply (inv_listed _ _ _ Inv).
Qed.

Lemma merge_loop_listed (all : list obj) (st : merge_state) :
  Forall normalized all ->
  merge_loop w existing all = Done st ->
  listed_inv w all st.
Proof.
  unfold merge_loop. fold seen.
  revert st. induction all as [|v pre IH] using rev_ind; intros st Hn H.
  - simpl in H. injection H as <-. constructor; discriminate.
  - rewrite foldM_snoc in H. apply bind_Done in H as (st0 & H0 & H).
    apply Forall_app in Hn as [Hpre Hv]. inversion Hv; subst.
    apply (listed_inv_step pre st0); [assumption|apply IH; assumption|].
    apply merge_step_Done, H.
Qed.

End ListedEntries.

(* ------------------------------------------------------------------ *)
(** ** Well-formed entries *)

























(* ------------------------------------------------------------------ *)
(** ** Lists the sort leaves alone *)

(** A list in which no entry compares as after its right neighbour comes
    back as it is, dated or not: the comparator never asks for a move. *)
Lemma js_sort_fixed (w : world) (l : list obj) :
  settled w l -> js_sort (by_newest w) l = l.
Proof.
  unfold settled. intros H. induction H as [|x l Hs IH Hx]; simpl; [reflexivity|].
  rewrite IH. destruct Hx as [|y l Hxy]; simpl; [reflexivity|].
  rewrite Hxy. reflexivity.
Qed.

(* ------------------------------------------------------------------ *)
(** ** Pairwise different keys *)





Lemma distinct_app_last (l : list value) (k : value) (l' : list value) :
  distinct (l ++ k :: l') ->
  forall k', In k' l -> same_value_zero k' k = false.
Proof.
  induction l as [|a l IH]; simpl; [intros _ k' []|].
  intros [Ha Hd] k' [<-|Hk'].
  - apply Ha. apply in_or_app. right. left. reflexivity.
  - apply (IH Hd), Hk'.
Qed.


(* ------------------------------------------------------------------ *)
(** ** The second run *)











Section SecondRun.

Variable w : world.
Variable existing : option Store.

Let seen : jsset := byIdSet existing.
Let prior : list obj := existing_vods existing.

Hypothesis seed_prior : seed existing = map (fun T => (vod_id T, T)) prior.
Hypothesis prior_nodup : forall T, In T prior -> NoDup (keys T).







End SecondRun.

(* ------------------------------------------------------------------ *)
(** ** The round trip of a reloaded entry *)










(* ------------------------------------------------------------------ *)
(** ** Two runs in succession *)















Lemma normalized_listing_keys (v : obj) (k : string) :
  normalized v -> In k listing_keys -> has_key v k = true.
Proof.
  intros (a & b & c & d & e & f & ->) Hk. simpl in Hk.
  repeat destruct Hk as [<-|Hk]; try reflexivity. contradiction.
Qed.







(* ------------------------------------------------------------------ *)
(** ** Cookie jar *)

Lemma jar_get_set (jar : CookieJar) (name value name' : string) :
  jar_get (jar_set name value jar) name'
  = if (name =? name')%string then Some value else jar_get jar name'.
Proof.
  induction jar as [|[n v] jar IH]; simpl.
  - reflexivity.
  - destruct (String.eqb_spec n name) as [->|Hn]; simpl.
    + destruct (name =? name')%string; reflexivity.
    + rewrite IH. destruct (String.eqb_spec n name') as [->|Hn'].
      * destruct (String.eqb_spec name name') as [->|_]; [contradiction|reflexivity].
      * reflexivity.
Qed.

Lemma jar_names_set (jar : CookieJar) (name value : string) :
  map fst (jar_set name value jar)
  = if existsb (String.eqb name) (map fst jar) then map fst jar
    else (map fst jar ++ [name])%list.
Proof.
  induction jar as [|[n v] jar IH]; simpl; [reflexivity|].
  rewrite (String.eqb_sym name n).
  destruct (n =? name)%string; simpl; [reflexivity|].
  rewrite IH. destruct (existsb (String.eqb name) (map fst jar)); reflexivity.
Qed.

Lemma jar_set_NoDup (jar : CookieJar) (name value : string) :
  NoDup (map fst jar) -> NoDup (map fst (jar_set name value jar)).
Proof.
  intros H. rewrite jar_names_set.
  destruct (existsb (String.eqb name) (map fst jar)) eqn:E; [exact H|].
  apply NoDup_app; [exact H|repeat constructor; intros []|].
  intros a Ha [<-|[]].
  assert (existsb (String.eqb name) (map fst jar) = true); [|congruence].
  apply existsb_exists. exists name. split; [exact Ha|apply String.eqb_refl].
Qed.

Lemma setCookiesFrom_snoc (jar : CookieJar) (cookies : list (string * string))
    (c : string * string) :
  setCookiesFrom jar (cookies ++ [c])
  = jar_set (fst c) (snd c) (setCookiesFrom jar cookies).
Proof. unfold setCookiesFrom. rewrite fold_left_app. reflexivity. Qed.

Lemma jar_get_setCookiesFrom (jar : CookieJar) (cookies : list (string * string))
    (name : string) :
  jar_get (setCookiesFrom jar cookies) name
  = match last_cookie cookies name with
    | Some v => Some v
    | None => jar_get jar name
    end.
Proof.
  induction cookies as [|[n v] cookies IH] using rev_ind; [reflexivity|].
  rewrite setCookiesFrom_snoc, jar_get_set. unfold last_cookie.
  rewrite rev_app_distr. simpl.
  destruct (n =? name)%string; [reflexivity|exact IH].
Qed.

(** X1: after a response, the jar holds for every name the value of the
    last [Set-Cookie] of that name in the response, and the value it held
    before for names the response does not set. *)
Theorem jar_after_response (jar : CookieJar) (cookies : list (string * string))
    (name : string) :
  jar_get (setCookiesFrom jar cookies) name
  = match last_cookie cookies name with
    | Some v => Some v
    | None => jar_get jar name
    end.
Proof. exact (jar_get_setCookiesFrom jar cookies name). Qed.

Lemma setCookiesFrom_NoDup (jar : CookieJar) (cookies : list (string * string)) :
  NoDup (map fst jar) -> NoDup (map fst (setCookiesFrom jar cookies)).
Proof.
  intros H. induction cookies as [|c cookies IH] using rev_ind; [exact H|].
  rewrite setCookiesFrom_snoc. apply jar_set_NoDup, IH.
Qed.

Lemma jar_set_not_nil (jar : CookieJar) (name value : string) :
  jar_set name value jar <> [].
Proof. destruct jar as [|[n v] jar]; simpl; [|destruct (n =? name)%string]; discriminate. Qed.

(** X2: a jar that starts empty never holds a cookie name twice, whatever
    responses arrive, and the [Cookie] header is absent exactly when no
    response has set a cookie yet. *)
Theorem jar_names_unique (responses : list (list (string * string))) :
  let jar := fold_left setCookiesFrom responses [] in
  NoDup (map fst jar) /\
  (cookieHeader jar = None <-> List.concat responses = []).
Proof.
  simpl. split.
  - assert (H : forall jar, NoDup (map fst jar) ->
                NoDup (map fst (fold_left setCookiesFrom responses jar))).
    { induction responses as [|r rs IH]; simpl; intros jar Hj; [exact Hj|].
      apply IH, setCookiesFrom_NoDup, Hj. }
    apply H. constructor.
  - assert (H : forall jar,
              fold_left setCookiesFrom responses jar = [] <->
              jar = [] /\ List.concat responses = []).
    { induction responses as [|r rs IH]; simpl; intros jar.
      - tauto.
      - rewrite IH. split.
        + intros [Hj Hrs]. rewrite Hrs, app_nil_r.
          destruct r as [|c r] using rev_ind; [auto|].
          rewrite setCookiesFrom_snoc in Hj. apply jar_set_not_nil in Hj. contradiction.
        + intros [-> Happ]. apply app_eq_nil in Happ as [-> ->]. auto. }
    specialize (H []). unfold cookieHeader.
    destruct (fold_left setCookiesFrom responses []) eqn:E.
    + split; [intros _; apply H; reflexivity|reflexivity].
    + split; [discriminate|]. intros Hc.
      assert (Hn : p :: c = []) by (apply H; auto). discriminate.
Qed.

Lemma join_with_head_nonempty (sep s : string) (l : list string) :
  s <> "" -> join_with sep (s :: l) <> "".
Proof.
  intros Hs. destruct l as [|s' l]; simpl; [exact Hs|].
  destruct s; [contradiction|]. simpl. discriminate.
Qed.

Lemma cookieHeader_nonempty (jar : CookieJar) (ck : string) :
  cookieHeader jar = Some ck -> ck <> "".
Proof.
  destruct jar as [|[n v] jar]; [discriminate|].
  unfold cookieHeader. intros [= <-].
  apply (join_with_head_nonempty "; " (n ++ "=" ++ v)
           (map (fun kv => fst kv ++ "=" ++ snd kv) jar)).
  destruct n; simpl; discriminate.
Qed.

(** X3: the anti-forgery token a response sets in the [XSRF-TOKEN] cookie is
    sent back with the next request under both header names, decoded when
    [decodeURIComponent] succeeds and raw when it throws, together with a
    [Cookie] header. *)
Theorem csrf_token_echoed (ORIGIN : string)
    (decodeURIComponent : string -> option string) (jar : CookieJar)
    (json json' : bool) (cookies : list (string * string)) (t : string) :
  last_cookie cookies "XSRF-TOKEN" = Some t ->
  t <> "" ->
  (forall d, decodeURIComponent t = Some d -> d <> "") ->
  let jar' := snd (fetchWithCookies ORIGIN decodeURIComponent jar json cookies) in
  let h := fst (fetchWithCookies ORIGIN decodeURIComponent jar' json' []) in
  let token := match decodeURIComponent t with Some d => d | None => t end in
  get h "X-XSRF-TOKEN" = VStr token /\
  get h "X-CSRF-Token" = VStr token /\
  exists ck, get h "Cookie" = VStr ck.
Proof.
  intros Hlast Ht Hd. cbn [fetchWithCookies fst snd].
  unfold defaultHeaders, xsrfHeaderValue.
  rewrite jar_get_setCookiesFrom, Hlast.
  destruct (String.eqb_spec t "") as [->|_]; [contradiction|].
  set (token := match decodeURIComponent t with Some d => d | None => t end).
  assert (Htok : token <> "")
    by (unfold token; destruct (decodeURIComponent t) as [d|]; auto).
  replace (match decodeURIComponent t with Some d => Some d | None => Some t end)
    with (Some token) by (unfold token; destruct (decodeURIComponent t); reflexivity).
  destruct (String.eqb_spec token "") as [E|_]; [contradiction|].
  destruct (cookieHeader (setCookiesFrom jar cookies)) as [ck|] eqn:Eck.
  - pose proof (cookieHeader_nonempty _ _ Eck) as Hck.
    destruct (String.eqb_spec ck "") as [E|_]; [contradiction|].
    destruct json'; rewrite ?get_assign; cbn [get];
      cbv [String.eqb Ascii.eqb Bool.eqb]; eauto.
  - exfalso. unfold cookieHeader in Eck.
    destruct (setCookiesFrom jar cookies) eqn:Ej; [|discriminate].
    pose proof (jar_get_setCookiesFrom jar cookies "XSRF-TOKEN") as Hj.
    rewrite Ej, Hlast in Hj. discriminate.
Qed.

Lemma csrf_token_echoed_witness :
  get (fst (fetchWithCookies "https://vault.example" (fun _ => None)
              (snd (fetchWithCookies "https://vault.example" (fun _ => None) []
                      false [("XSRF-TOKEN", "abc"); ("session", "1")]))
              true []))
    "X-XSRF-TOKEN" = VStr "abc".
Proof.
  refine (proj1 (csrf_token_echoed "https://vault.example" (fun _ => None) []
                   false true [("XSRF-TOKEN", "abc"); ("session", "1")] "abc"
                   eq_refl _ _)).
  - discriminate.
  - discriminate.
Defined.

(* ------------------------------------------------------------------ *)
(** ** The page loop against a server that ignores the page *)

Lemma full_page_loops (w : world) (limit : option Z) (tu : value) (j : value)
    (items : list value) :
  same_listing_each_page w tu ->
  ok (list_resp w 1 tu) = true ->
  body (list_resp w 1 tu) = Some j ->
  prop j "data" = VArr items ->
  items <> [] ->
  below_limit (List.length items) limit = false ->
  forall fuel page acc r, fetchAllPages w limit tu fuel page acc <> Done r.
Proof.
  intros Hsame Hok Hbody Hdata Hne Hfull.
  induction fuel as [|fuel IH]; intros page acc r; simpl; [discriminate|].
  unfold fetchVodPage. rewrite (Hsame page), Hok, Hbody. simpl.
  assert (Hm : member j "data" = Done (VArr items)).
  { unfold member. rewrite <- Hdata. destruct j; try reflexivity; discriminate. }
  rewrite Hm. simpl.
  destruct items as [|item items]; [contradiction|].
  destruct (foldM push_normalized (item :: items) acc) as [acc'| |];
    cbn [bind]; try discriminate.
  simpl in Hfull. simpl List.length. rewrite Hfull. apply IH.
Qed.

Lemma one_page_only (w : world) (limit : option Z) (tu : value) :
  same_listing_each_page w tu ->
  forall fuel page acc all pages,
    fetchAllPages w limit tu fuel page acc = Done (all, pages) -> pages = page.
Proof.
  intros Hsame. destruct fuel as [|fuel]; intros page acc all pages; simpl;
    [discriminate|].
  intros H. apply bind_Done in H as (list & Hlist & H).
  apply bind_Done in H as (data & Hdata & H).
  destruct data as [| | | | |[|item items]|]; try (injection H as _ <-; reflexivity).
  apply bind_Done in H as (acc' & Hpush & H).
  destruct (below_limit (List.length (item :: items)) limit) eqn:Hb;
    [injection H as _ <-; reflexivity|].
  exfalso. unfold fetchVodPage in Hlist. rewrite (Hsame page) in Hlist.
  destruct (ok (list_resp w 1 tu)) eqn:Hok; [|discriminate]. simpl in Hlist.
  destruct (body (list_resp w 1 tu)) as [j|] eqn:Hbody; [|discriminate].
  injection Hlist as ->.
  assert (Hd : prop list "data" = VArr (item :: items))
    by (unfold member in Hdata; destruct list; try discriminate; congruence).
  exact (full_page_loops w limit tu list (item :: items) Hsame Hok Hbody Hd
           ltac:(discriminate) Hb fuel (page + 1) acc' _ H).
Qed.

Lemma main_Done_trace (cfg : config) (w : world) (fuel : nat) (s : Store)
    (tr : list request) :
  main cfg w fuel = Done (s, tr) ->
  exists user all pages st,
    login cfg w = Done user /\
    fetchAllPages w (PAGE_LIMIT cfg) (prop user "username") fuel 1 []
      = Done (all, pages) /\
    merge_loop w (stored w) all = Done st /\
    tr = ([ReqWarmup; ReqLogin (login_body cfg)]
          ++ repeat_requests (Z.to_nat pages) (ReqList (prop user "username"))
          ++ map ReqFileInfo (fetched st))%list.
Proof.
  unfold main. intros H.
  apply bind_Done in H as ([] & _ & H).
  apply bind_Done in H as (user & Hlogin & H).
  apply bind_Done in H as ([all pages] & Hlist & H).
  apply bind_Done in H as (st & Hloop & H).
  injection H as _ <-. exists user, all, pages, st. auto.
Qed.

Lemma filter_list_requests (n : nat) (u : value) (ids : list value) :
  filter is_list_request (repeat_requests n (ReqList u) ++ map ReqFileInfo ids)
  = repeat_requests n (ReqList u).
Proof.
  induction n as [|n IH]; simpl.
  - induction ids as [|i ids IHi]; simpl; auto.
  - rewrite IH. reflexivity.
Qed.

Lemma file_info_ids_trace (n : nat) (u : value) (ids : list value) :
  file_info_ids (repeat_requests n (ReqList u) ++ map ReqFileInfo ids) = ids.
Proof.
  unfold file_info_ids. induction n as [|n IH]; simpl.
  - induction ids as [|i ids IHi]; simpl; [reflexivity|]. rewrite IHi. reflexivity.
  - exact IH.
Qed.

(** X5: when the server answers every listing request alike, a run that
    completes has made exactly one listing request. *)
Theorem one_listing_request (cfg : config) (w : world) (fuel : nat) (s : Store)
    (tr : list request) (user : value) :
  main cfg w fuel = Done (s, tr) ->
  login cfg w = Done user ->
  same_listing_each_page w (prop user "username") ->
  filter is_list_request tr = [ReqList (prop user "username")].
Proof.
  intros Hmain Hlogin Hsame.
  apply main_Done_trace in Hmain
    as (user' & all & pages & st & Hlogin' & Hlist & _ & ->).
  rewrite Hlogin in Hlogin'. injection Hlogin' as <-.
  rewrite (one_page_only w _ _ Hsame _ _ _ _ _ Hlist).
  cbn [app filter is_list_request]. apply filter_list_requests.
Qed.

(* ------------------------------------------------------------------ *)
(** ** Requests and entries of a completed run *)

Lemma fetched_have_files (w : world) (existing : option Store) (all : list obj)
    (st : merge_state) :
  merge_loop w existing all = Done st ->
  forall i, In i (fetched st) ->
    (exists fs, stored_files w i = Done fs) /\
    (is_primitive i = true ->
     exists x fs n, map_get (mergedById st) i = Some x /\
                    stored_files w i = Done fs /\
                    get x "files" = VArr (map VObj fs) /\
                    get x "filesFetchedAt" = VStr (clock w n) /\
                    (n < clock_reads st)%nat).
Proof.
  unfold merge_loop. revert st.
  induction all as [|v pre IH] using rev_ind; intros st H i Hi.
  - simpl in H. injection H as <-. destruct Hi.
  - rewrite foldM_snoc in H. apply bind_Done in H as (st0 & H0 & H).
    specialize (IH st0 H0). apply merge_step_Done in H.
    destruct H as [files Hmust Hfiles HM Hclock Hfetched
                  |old Hneeds Hseen Hold HM Hclock Hfetched].
    + rewrite Hfetched in Hi. rewrite HM, Hclock.
      destruct (same_value_zero (vod_id v) i) eqn:E.
      * apply same_value_zero_eq in E as Heq. subst i. split; [eauto|].
        intros _. rewrite map_get_set_same by assumption.
        eexists. exists files, (clock_reads st0). split; [reflexivity|].
        unfold withFiles.
        rewrite get_assign_same, get_assign_other, get_assign_same by discriminate.
        auto.
      * apply in_app_or in Hi as [Hi|[<-|[]]].
        -- destruct (IH i Hi) as [Hfs Hp]. split; [exact Hfs|].
           intros Hprim. rewrite map_get_set_other by assumption.
           destruct (Hp Hprim) as (x & fs & n & Hx & Hs & Hf & Ht & Hn).
           exists x, fs, n. repeat split; auto.
        -- split; [eauto|]. intros Hprim.
           rewrite same_value_zero_refl in E by assumption. discriminate.
    + rewrite Hfetched in Hi. rewrite HM, Hclock.
      destruct (IH i Hi) as [Hfs Hp]. split; [exact Hfs|].
      intros Hprim. destruct (Hp Hprim) as (x & fs & n & Hx & Hs & Hf & Ht & Hn).
      destruct (same_value_zero (vod_id v) i) eqn:E.
      * apply same_value_zero_eq in E as Heq. subst i.
        rewrite map_get_set_same by assumption.
        rewrite Hx in Hold. injection Hold as <-.
        exists (keepFiles x v), fs, n. split; [reflexivity|].
        unfold keepFiles.
        rewrite get_assign_same, get_assign_other, get_assign_same by discriminate.
        auto.
      * rewrite map_get_set_other by assumption. exists x, fs, n. auto.
Qed.

(** X6: one failing [file_info] request aborts the whole run: when a listed
    entry has to be fetched and its request does not yield a file list (HTTP
    failure, a body that is not JSON, a null record), the run does not
    complete and no snapshot is handed to [saveStore]. *)
Theorem failed_file_info_aborts (cfg : config) (w : world) (fuel : nat)
    (user : value) (all : list obj) (pages : Z) (v : obj) :
  login cfg w = Done user ->
  fetchAllPages w (PAGE_LIMIT cfg) (prop user "username") fuel 1 []
    = Done (all, pages) ->
  In v all ->
  must_fetch (stored w) (vod_id v) = true ->
  (forall fs, stored_files w (vod_id v) <> Done fs) ->
  forall r, main cfg w fuel <> Done r.
Proof.
  intros Hlogin Hlist Hv Hmust Hfail [s tr] Hmain.
  apply main_Done in Hmain
    as (user' & all' & pages' & st & Hlogin' & Hlist' & Hn & Hloop & _).
  rewrite Hlogin in Hlogin'. injection Hlogin' as <-.
  rewrite Hlist in Hlist'. injection Hlist' as <- <-.
  pose proof (merge_loop_inv _ _ _ _ Hn Hloop) as Inv.
  pose proof (inv_fetch_done _ _ _ Inv v Hv Hmust) as Hin.
  destruct (fetched_have_files _ _ _ _ Hloop _ Hin) as [(fs & Hfs) _].
  exact (Hfail fs Hfs).
Qed.

(** X7: every entry a completed run has requested [file_info] for is saved
    with exactly the file list the server returned for its id, mapped to
    stored files, and with a [filesFetchedAt] read from the clock during
    this run, before [meta.generatedAt]. *)
Theorem fetched_entry_saved_with_files (cfg : config) (w : world) (fuel : nat)
    (s : Store) (tr : list request) (id : value) :
  main cfg w fuel = Done (s, tr) ->
  In (ReqFileInfo id) tr ->
  is_primitive id = true ->
  exists e fs n m,
    In e (vods s) /\ vod_id e = id /\
    stored_files w id = Done fs /\
    get e "files" = VArr (map VObj fs) /\
    get e "filesFetchedAt" = VStr (clock w n) /\
    generatedAt (meta s) = clock w m /\ (n < m)%nat.
Proof.
  intros Hmain Hreq Hprim.
  apply main_Done in Hmain
    as (user & all & pages & st & _ & _ & Hn & Hloop & -> & Htr).
  apply Htr in Hreq.
  destruct (fetched_have_files _ _ _ _ Hloop _ Hreq) as [_ Hp].
  destruct (Hp Hprim) as (x & fs & n & Hx & Hs & Hf & Ht & Hlt).
  pose proof (merge_loop_inv _ _ _ _ Hn Hloop) as Inv.
  apply map_get_In in Hx.
  exists x, fs, n, (clock_reads st). repeat split; auto.
  - apply build_store_In. apply (in_map snd) in Hx. exact Hx.
  - apply (inv_ids _ _ _ Inv _ _ Hx).
Qed.

Lemma distinct_snoc (l : list value) (k : value) :
  distinct (l ++ [k]) ->
  distinct l /\ forall k', In k' l -> same_value_zero k' k = false.
Proof.
  intros H. split; [|apply (distinct_app_last l k [] H)].
  induction l as [|a l IH]; simpl in *; [exact I|].
  destruct H as [Ha Hd]. split; [|apply IH, Hd].
  intros k' Hk'. apply Ha. apply in_or_app. left. exact Hk'.
Qed.

Lemma fetched_sequence (w : world) (existing : option Store) (all : list obj)
    (st : merge_state) :
  Forall normalized all ->
  distinct (map vod_id all) ->
  merge_loop w existing all = Done st ->
  fetched st = filter (must_fetch existing) (map vod_id all).
Proof.
  revert st. induction all as [|v pre IH] using rev_ind; intros st Hn Hd H.
  - unfold merge_loop in H. simpl in H. injection H as <-. reflexivity.
  - assert (H' := H). unfold merge_loop in H'. rewrite foldM_snoc in H'.
    apply bind_Done in H' as (st0 & H0 & Hstep).
    apply Forall_app in Hn as [Hpre _].
    rewrite map_app in Hd. simpl in Hd. apply distinct_snoc in Hd as [Hd Hnew].
    specialize (IH st0 Hpre Hd H0).
    pose proof (merge_loop_inv w existing pre st0 Hpre H0) as Inv.
    assert (Hun : map_get (mergedById st0) (vod_id v)
                  = map_get (seed existing) (vod_id v)).
    { apply (inv_unlisted _ _ _ Inv).
      destruct (existsb _ pre) eqn:E; [|reflexivity].
      apply existsb_exists in E as (v' & Hin & Hsv).
      rewrite (Hnew (vod_id v')) in Hsv by (apply in_map, Hin). discriminate. }
    rewrite map_app, filter_app. simpl. apply merge_step_Done in Hstep.
    destruct Hstep as [files Hmust _ _ _ Hfetched|old Hneeds Hseen _ _ _ Hfetched];
      rewrite Hfetched, IH.
    + unfold must_fetch. rewrite <- Hun, Hmust. reflexivity.
    + unfold must_fetch. rewrite <- Hun, Hneeds, Hseen. simpl.
      rewrite app_nil_r. reflexivity.
Qed.

(** X8: with pairwise different listed ids, the [file_info] requests of a
    completed run are exactly the listed ids that need files according to
    the prior snapshot, one request each, in listing order. *)
Theorem file_info_requests_in_listing_order (cfg : config) (w : world)
    (fuel : nat) (s : Store) (tr : list request) (user : value)
    (all : list obj) (pages : Z) :
  main cfg w fuel = Done (s, tr) ->
  login cfg w = Done user ->
  fetchAllPages w (PAGE_LIMIT cfg) (prop user "username") fuel 1 []
    = Done (all, pages) ->
  distinct (map vod_id all) ->
  file_info_ids tr = filter (must_fetch (stored w)) (map vod_id all).
Proof.
  intros Hmain Hlogin Hlist Hd.
  pose proof (main_Done _ _ _ _ _ Hmain)
    as (user0 & all0 & pages0 & st0 & Hlogin0 & Hlist0 & Hn & _).
  apply main_Done_trace in Hmain
    as (user' & all' & pages' & st & Hlogin' & Hlist' & Hloop & ->).
  rewrite Hlogin in Hlogin', Hlogin0. injection Hlogin' as <-. injection Hlogin0 as <-.
  rewrite Hlist in Hlist', Hlist0. injection Hlist' as <- <-.
  injection Hlist0 as <- _.
  change (file_info_ids
            (repeat_requests (Z.to_nat pages) (ReqList (prop user "username"))
             ++ map ReqFileInfo (fetched st))
          = filter (must_fetch (stored w)) (map vod_id all)).
  rewrite file_info_ids_trace. apply (fetched_sequence w); assumption.
Qed.

(** X9: a run invents no entry: the id of every saved entry is the id of an
    entry of the prior snapshot or of a listed record. *)
Theorem saved_ids_prior_or_listed (cfg : config) (w : world) (fuel : nat)
    (s : Store) (tr : list request) (user : value) (all : list obj) (pages : Z) :
  main cfg w fuel = Done (s, tr) ->
  login cfg w = Done user ->
  fetchAllPages w (PAGE_LIMIT cfg) (prop user "username") fuel 1 []
    = Done (all, pages) ->
  forall e, In e (vods s) ->
    In (vod_id e) (map vod_id (existing_vods (stored w))) \/
    In (vod_id e) (map vod_id all).
Proof.
  intros Hmain Hlogin Hlist e He.
  apply main_Done in Hmain
    as (user' & all' & pages' & st & Hlogin' & Hlist' & Hn & Hloop & -> & _).
  rewrite Hlogin in Hlogin'. injection Hlogin' as <-.
  rewrite Hlist in Hlist'. injection Hlist' as <- <-.
  pose proof (merge_loop_inv _ _ _ _ Hn Hloop) as Inv.
  apply build_store_In in He.
  apply in_map_iff in He as ([k x] & Hsnd & Hin). simpl in Hsnd. subst x.
  rewrite (inv_ids _ _ _ Inv _ _ Hin).
  apply (merge_loop_keys _ _ _ _ Hloop). apply (in_map fst) in Hin. exact Hin.
Qed.

(** X10: every listed id is saved, and the properties the normalizer
    writes ([id], [title], [channel], [created_at], [duration_seconds],
    [twitch_id]) have in the saved entry the values of the last record
    listed with that id, undefined ones included. *)
Theorem listed_entry_saved_with_listing_fields (cfg : config) (w : world)
    (fuel : nat) (s : Store) (tr : list request) (user : value)
    (all : list obj) (pages : Z) (i : value) (v : obj) :
  main cfg w fuel = Done (s, tr) ->
  login cfg w = Done user ->
  fetchAllPages w (PAGE_LIMIT cfg) (prop user "username") fuel 1 []
    = Done (all, pages) ->
  last_listed all i = Some v ->
  exists e, In e (vods s) /\ vod_id e = i /\
            forall k, In k listing_keys -> get e k = get v k.
Proof.
  intros Hmain Hlogin Hlist Hlast.
  apply main_Done in Hmain
    as (user' & all' & pages' & st & Hlogin' & Hlist' & Hn & Hloop & -> & _).
  rewrite Hlogin in Hlogin'. injection Hlogin' as <-.
  rewrite Hlist in Hlist'. injection Hlist' as <- <-.
  pose proof (merge_loop_inv _ _ _ _ Hn Hloop) as Inv.
  destruct (inv_last _ _ _ (merge_loop_listed _ _ _ _ Hn Hloop) i v Hlast)
    as (x & Hx & Hfields).
  destruct (last_listed_Some all i v Hlast) as (Hv & _ & _).
  rewrite Forall_forall in Hn.
  apply map_get_In in Hx. exists x. repeat split.
  - apply build_store_In. apply (in_map snd) in Hx. exact Hx.
  - apply (inv_ids _ _ _ Inv _ _ Hx).
  - intros k Hk. apply Hfields, normalized_listing_keys; auto.
Qed.

(** X11: an entry of the prior snapshot that the listing does not mention
    is saved unchanged (prior ids pairwise distinct). *)
Theorem unlisted_entry_carried_over (cfg : config) (w : world) (fuel : nat)
    (s : Store) (tr : list request) (user : value) (all : list obj) (pages : Z)
    (e : obj) :
  main cfg w fuel = Done (s, tr) ->
  login cfg w = Done user ->
  fetchAllPages w (PAGE_LIMIT cfg) (prop user "username") fuel 1 []
    = Done (all, pages) ->
  NoDup (map vod_id (existing_vods (stored w))) ->
  In e (existing_vods (stored w)) ->
  is_primitive (vod_id e) = true ->
  (forall v, In v all -> vod_id v <> vod_id e) ->
  In e (vods s).
Proof.
  intros Hmain Hlogin Hlist Hnd He Hprim Hun.
  apply main_Done in Hmain
    as (user' & all' & pages' & st & Hlogin' & Hlist' & Hn & Hloop & -> & _).
  rewrite Hlogin in Hlogin'. injection Hlogin' as <-.
  rewrite Hlist in Hlist'. injection Hlist' as <- <-.
  pose proof (merge_loop_inv _ _ _ _ Hn Hloop) as Inv.
  assert (Hl : existsb (fun v => same_value_zero (vod_id v) (vod_id e)) all = false).
  { destruct (existsb _ all) eqn:E; [|reflexivity].
    apply existsb_exists in E as (v & Hv & Hsv).
    apply same_value_zero_eq in Hsv. exfalso. exact (Hun v Hv Hsv). }
  pose proof (inv_unlisted _ _ _ Inv _ Hl) as Hsame.
  rewrite (map_get_seed_In _ _ Hnd He Hprim) in Hsame.
  apply build_store_In. apply map_get_In in Hsame.
  apply (in_map snd) in Hsame. exact Hsame.
Qed.

(** X12: the two counters of the merge loop partition the [file_info]
    requests: [newCount] counts the requests for ids absent from the prior
    snapshot's id set, [refreshedCount] those for ids present in it, and
    the clock is read once per request. *)
Theorem merge_counters (w : world) (existing : option Store) (all : list obj)
    (st : merge_state) :
  merge_loop w existing all = Done st ->
  newCount st
    = Z.of_nat (List.length
        (filter (fun i => negb (set_has (byIdSet existing) i)) (fetched st))) /\
  refreshedCount st
    = Z.of_nat (List.length
        (filter (fun i => set_has (byIdSet existing) i) (fetched st))) /\
  newCount st + refreshedCount st = Z.of_nat (List.length (fetched st)) /\
  clock_reads st = List.length (fetched st).
Proof.
  unfold merge_loop. revert st.
  induction all as [|v pre IH] using rev_ind; intros st H.
  - simpl in H. injection H as <-. repeat split.
  - rewrite foldM_snoc in H. apply bind_Done in H as (st0 & H0 & H).
    destruct (IH st0 H0) as (Hnew & Hre & Hsum & Hclock).
    unfold merge_step in H.
    destruct (needsFileInfo (map_get (mergedById st0) (get v "id"))
              || negb (set_has (byIdSet existing) (get v "id"))) eqn:Hmust.
    + apply bind_Done in H as (raw & _ & H).
      apply bind_Done in H as (files & _ & H). injection H as <-. simpl.
      rewrite !filter_app, !length_app. simpl.
      destruct (set_has (byIdSet existing) (get v "id")); simpl;
        rewrite ?Nat.add_0_r; repeat split; lia.
    + destruct (map_get (mergedById st0) (get v "id")); [|discriminate].
      injection H as <-. simpl. auto.
Qed.

Lemma merge_counters_witness :
  newCount (merge_result (merge_loop w_mixed (stored w_mixed) all_1234))
  = Z.of_nat (List.length
      (filter (fun i => negb (set_has (byIdSet (stored w_mixed)) i))
         (fetched (merge_result (merge_loop w_mixed (stored w_mixed) all_1234))))).
Proof.
  exact (proj1 (merge_counters w_mixed (stored w_mixed) all_1234 _ eq_refl)).
Defined.

(* ------------------------------------------------------------------ *)
(** ** Saving what was loaded *)

Lemma jsonify_obj_cons (k : string) (x : value) (o : obj) :
  x <> VUndef -> jsonify_obj ((k, x) :: o) = (k, jsonify x) :: jsonify_obj o.
Proof. intros H. destruct x; try reflexivity. congruence. Qed.

Lemma jsonify_idem (v : value) : jsonify (jsonify v) = jsonify v.
Proof.
  induction v as [| |b|n|s|l IH|o IH] using value_ind'; try reflexivity.
  - simpl. f_equal. rewrite map_map. apply map_ext_in. intros x Hx.
    rewrite Forall_forall in IH. specialize (IH x Hx).
    destruct x; try reflexivity; exact IH.
  - rewrite !jsonify_VObj. f_equal.
    induction o as [|[k x] o IHo]; [reflexivity|].
    inversion IH as [|? ? IHx IH']; subst. simpl in IHx.
    specialize (IHo IH').
    destruct (jsonify_undef x) as [_ Hu].
    assert (Hx : x = VUndef \/ x <> VUndef)
      by (destruct x; try (right; discriminate); left; reflexivity).
    destruct Hx as [->|Hx]; [exact IHo|].
    rewrite (jsonify_obj_cons k x o Hx).
    rewrite jsonify_obj_cons by (intros E; apply Hx, jsonify_undef, E).
    rewrite IHx, IHo. reflexivity.
Qed.

Lemma jsonify_obj_idem (o : obj) : jsonify_obj (jsonify_obj o) = jsonify_obj o.
Proof.
  pose proof (jsonify_idem (VObj o)) as H. rewrite !jsonify_VObj in H. congruence.
Qed.

Lemma saveStore_parts (s : Store) :
  saveStore s
  = VObj [("meta",
           VObj (jsonify_obj [("generatedAt", VStr (generatedAt (meta s)));
                              ("baseUrl", VStr (baseUrl (meta s)));
                              ("targetUser", targetUser (meta s));
                              ("total", VNum (total (meta s)))]));
          ("vods", VArr (map VObj (map jsonify_obj (vods s))))].
Proof.
  unfold saveStore, store_value.
  change (jsonify (VObj [("meta", VObj ?m); ("vods", VArr (map VObj ?l))]))
    with (VObj [("meta", jsonify (VObj m)); ("vods", jsonify (VArr (map VObj l)))]).
  rewrite jsonify_VObj. simpl jsonify at 1. rewrite !map_map. reflexivity.
Qed.

(** X13: writing back a snapshot as it was read reproduces the document:
    [saveStore] of the reloaded store is the document [saveStore] wrote. *)
Theorem save_reload_round_trip (s : Store) :
  saveStore (reload s) = saveStore s /\ reload (reload s) = reload s.
Proof.
  assert (Hv : map jsonify_obj (map jsonify_obj (vods s)) = map jsonify_obj (vods s)).
  { rewrite map_map. apply map_ext. intros e. apply jsonify_obj_idem. }
  split.
  - assert (Hm : forall g b tu n,
              jsonify_obj [("generatedAt", VStr g); ("baseUrl", VStr b);
                           ("targetUser", jsonify tu); ("total", VNum n)]
              = jsonify_obj [("generatedAt", VStr g); ("baseUrl", VStr b);
                             ("targetUser", tu); ("total", VNum n)]).
    { intros g b tu n.
      rewrite !(jsonify_obj_cons "generatedAt"), !(jsonify_obj_cons "baseUrl")
        by discriminate.
      do 2 f_equal.
      assert (Hx : tu = VUndef \/ tu <> VUndef)
        by (destruct tu; try (right; discriminate); left; reflexivity).
      destruct Hx as [->|Hx]; [reflexivity|].
      rewrite (jsonify_obj_cons "targetUser" tu) by assumption.
      rewrite (jsonify_obj_cons "targetUser" (jsonify tu))
        by (intros E; apply Hx, jsonify_undef, E).
      rewrite jsonify_idem. reflexivity. }
    rewrite !saveStore_parts. unfold reload.
    cbn [meta vods generatedAt baseUrl targetUser total]. rewrite Hv, Hm.
    reflexivity.
  - unfold reload. cbn [meta vods generatedAt baseUrl targetUser total].
    rewrite jsonify_idem, Hv. reflexivity.
Qed.

(* ------------------------------------------------------------------ *)
(** ** Id set, normalizer and id resolution *)

(** X14: [byIdSet(store).has(id)] holds exactly when some entry of the
    store has that (primitive) id, which is exactly when the map seeded from
    the store has an entry for it; without a store the set is empty. *)
Theorem byIdSet_membership (store : option Store) (i : value) :
  (set_has (byIdSet store) i = true <->
   exists e, In e (existing_vods store) /\ vod_id e = i /\ is_primitive i = true) /\
  (set_has (byIdSet store) i = true <-> map_get (seed store) i <> None) /\
  byIdSet None = [].
Proof.
  split; [|split; [apply seen_iff_seeded|reflexivity]].
  rewrite set_has_byIdSet. split.
  - intros H. apply existsb_exists in H as (e & He & Hsv). exists e.
    pose proof (same_value_zero_eq _ _ Hsv) as Heq.
    repeat split; try assumption.
    rewrite <- Heq. apply (same_value_zero_primitive _ _ Hsv).
  - intros (e & He & <- & Hp). apply existsb_exists. exists e.
    split; [exact He|apply same_value_zero_refl, Hp].
Qed.

Lemma coalesce_undef_not_null (a : value) : a ?? VUndef <> VNull.
Proof. destruct a; discriminate. Qed.

Lemma coalesce_not_null (a b : value) : b <> VNull -> a ?? b <> VNull.
Proof. intros Hb. destruct a; try discriminate; exact Hb. Qed.

(** X15: the normalizer accepts a record exactly when its [ID] is truthy;
    the accepted entry carries that [ID] unchanged as [id], none of its
    other properties is ever [null], and [resolveVodIdForFileInfo] of it is
    the string form of the [ID]. *)
Theorem normalizeVod_accepts (raw : value) :
  raw <> VNull -> raw <> VUndef ->
  (truthy (prop raw "ID") = false -> normalizeVod raw = Done None) /\
  (truthy (prop raw "ID") = true ->
   exists v, normalizeVod raw = Done (Some v) /\
             vod_id v = prop raw "ID" /\
             (forall k, k <> "id" -> get v k <> VNull) /\
             resolveVodIdForFileInfo v = Some (to_string (prop raw "ID"))).
Proof.
  intros Hn Hu.
  assert (Hm : member raw "ID" = Done (prop raw "ID"))
    by (destruct raw; try reflexivity; contradiction).
  unfold normalizeVod. rewrite Hm. simpl. split.
  - intros ->. reflexivity.
  - intros Ht. rewrite Ht. simpl. eexists. split; [reflexivity|].
    split; [reflexivity|]. split.
    + intros k Hk. cbn [get].
      destruct (String.eqb_spec "id" k) as [<-|_]; [contradiction|].
      repeat match goal with
             | |- context [(?x =? k)%string] => destruct (x =? k)%string
             end;
        cbv beta iota;
        first [ discriminate
              | apply coalesce_undef_not_null
              | apply coalesce_not_null, coalesce_undef_not_null ].
    + unfold resolveVodIdForFileInfo. cbn [first_truthy get].
      cbv [String.eqb Ascii.eqb Bool.eqb]. rewrite Ht. reflexivity.
Qed.

Lemma normalizeVod_accepts_witness :
  exists v, normalizeVod raw_full = Done (Some v) /\
            vod_id v = prop raw_full "ID" /\
            (forall k, k <> "id" -> get v k <> VNull) /\
            resolveVodIdForFileInfo v = Some (to_string (prop raw_full "ID")).
Proof.
  refine (proj2 (normalizeVod_accepts raw_full _ _) eq_refl); discriminate.
Defined.

(** X16: [resolveVodIdForFileInfo] is undefined exactly when none of [id],
    [vod_id], [twitch_id], [vodId] is truthy; otherwise it is the string
    form of the first truthy one in that order. *)
Theorem resolveVodIdForFileInfo_first_truthy (v : obj) :
  (resolveVodIdForFileInfo v = None <->
   forall k, In k ["id"; "vod_id"; "twitch_id"; "vodId"] ->
             truthy (get v k) = false) /\
  (forall s, resolveVodIdForFileInfo v = Some s ->
     exists before k after,
       ["id"; "vod_id"; "twitch_id"; "vodId"] = (before ++ k :: after)%list /\
       (forall k', In k' before -> truthy (get v k') = false) /\
       truthy (get v k) = true /\ s = to_string (get v k)).
Proof.
  unfold resolveVodIdForFileInfo.
  generalize ["id"; "vod_id"; "twitch_id"; "vodId"]. intros ks. split.
  - induction ks as [|k ks IH]; simpl.
    + split; [intros _ k []|reflexivity].
    + destruct (truthy (get v k)) eqn:E.
      * split; [discriminate|]. intros H.
        rewrite (H k) in E by (left; reflexivity). discriminate.
      * rewrite IH. split.
        -- intros H k' [<-|Hk']; [exact E|apply H, Hk'].
        -- intros H k' Hk'. apply H. right. exact Hk'.
  - induction ks as [|k ks IH]; simpl; intros s; [discriminate|].
    destruct (truthy (get v k)) eqn:E.
    + intros [= <-]. exists [], k, ks. repeat split; [intros k' []|exact E].
    + intros H. destruct (IH s H) as (before & k0 & after & -> & Hb & Ht & Hs).
      exists (k :: before), k0, after. repeat split; try assumption.
      intros k' [<-|Hk']; [exact E|apply Hb, Hk'].
Qed.

(* ------------------------------------------------------------------ *)
(** ** Merging an arbitrary fresh entry *)

Lemma get_spread_nodup (o base : obj) (k : string) :
  NoDup (keys o) ->
  get (spread base o) k = if has_key o k then get o k else get base k.
Proof.
  revert base. induction o as [|[k0 x0] o IH]; intros base Hnd; [reflexivity|].
  inversion Hnd as [|? ? Hnotin Hnd']; subst.
  change (spread base ((k0, x0) :: o)) with (spread (assign k0 x0 base) o).
  rewrite IH by exact Hnd'. simpl.
  destruct (String.eqb_spec k0 k) as [->|Hne].
  - assert (Hk : has_key o k = false).
    { destruct (has_key o k) eqn:E; [|reflexivity].
      apply has_key_In in E. contradiction. }
    rewrite Hk. apply get_assign_same.
  - destruct (has_key o k); [reflexivity|].
    apply get_assign_other. exact Hne.
Qed.

(** X17: [mergeVodPreservingFiles] of any two objects reads, for every key
    but [files], the fresh object's value where the fresh object has the
    key and the old one's otherwise; [files] is the old list exactly when
    the fresh [files] is [undefined] (a fresh [null] replaces it); with no
    old entry the fresh object is returned as it is. *)
Theorem mergeVodPreservingFiles_reads (old fresh : obj) :
  NoDup (keys old) -> NoDup (keys fresh) ->
  mergeVodPreservingFiles None fresh = fresh /\
  (forall k, k <> "files" ->
     get (mergeVodPreservingFiles (Some old) fresh) k =
       if has_key fresh k then get fresh k else get old k) /\
  get (mergeVodPreservingFiles (Some old) fresh) "files" =
    (if strict_eq_prim (get fresh "files") VUndef
     then get old "files" else get fresh "files") /\
  (forall k, has_key (mergeVodPreservingFiles (Some old) fresh) k = true ->
     has_key old k = true \/ has_key fresh k = true \/ k = "files").
Proof.
  intros Hold Hfresh. split; [reflexivity|].
  unfold mergeVodPreservingFiles. rewrite (spread_copy old Hold).
  split; [|split].
  - intros k Hk. destruct (strict_eq_prim (get fresh "files") VUndef).
    + rewrite get_assign_other by congruence. apply get_spread_nodup, Hfresh.
    + apply get_spread_nodup, Hfresh.
  - destruct (strict_eq_prim (get fresh "files") VUndef) eqn:E.
    + apply get_assign_same.
    + rewrite get_spread_nodup by exact Hfresh.
      destruct (has_key fresh "files") eqn:Hk; [reflexivity|].
      rewrite (get_no_key _ _ Hk) in E. discriminate.
  - intros k. destruct (strict_eq_prim (get fresh "files") VUndef).
    + rewrite has_key_assign, has_key_spread.
      destruct (String.eqb_spec "files" k) as [<-|_]; [auto|].
      simpl. intros H. apply orb_true_iff in H. tauto.
    + rewrite has_key_spread. intros H. apply orb_true_iff in H. tauto.
Qed.

(* ------------------------------------------------------------------ *)
(** ** Stored files *)

Lemma if_not_null (b : bool) (x y : value) :
  x <> VNull -> y <> VNull -> (if b then x else y) <> VNull.
Proof. destruct b; auto. Qed.

Lemma is_number_not_null (x : value) : is_number x = true -> x <> VNull.
Proof. destruct x; discriminate. Qed.

(** X18: a stored file always has the same seven properties in the same
    order, none of them ever [null] (a [null] of the response reads as
    absent); [fileSizeRaw] is a number or absent, and a numeric
    [fileSizeRaw] of the response with no [fileSize] gives the size text
    in bytes, while a size taken from [size] gives no text. *)
Theorem stored_file_shape (f : value) (o : obj) :
  mapFileInfoToStoredFile f = Done o ->
  keys o = ["fileId"; "fileName"; "fileSizeRaw"; "fileSize"; "downloadUrl";
            "contentType"; "metadata"] /\
  (forall k, get o k <> VNull) /\
  (get o "fileSizeRaw" = VUndef \/ is_number (get o "fileSizeRaw") = true) /\
  (nullish (prop f "fileSize") = true ->
   get o "fileSize" =
     if is_number (prop f "fileSizeRaw")
     then VStr (to_string (get o "fileSizeRaw") ++ " B") else VUndef).
Proof.
  intros H.
  assert (Ho : o =
    [("fileId", prop f "fileId" ?? prop f "id" ?? prop f "versionId" ?? VUndef);
     ("fileName", prop f "fileName" ?? prop f "name" ?? VUndef);
     ("fileSizeRaw",
       if is_number (prop f "fileSizeRaw") then prop f "fileSizeRaw"
       else if is_number (prop f "size") then prop f "size" else VUndef);
     ("fileSize",
       prop f "fileSize" ??
         (if is_number (prop f "fileSizeRaw")
          then VStr (to_string (prop f "fileSizeRaw") ++ " B") else VUndef));
     ("downloadUrl", prop f "downloadUrl" ?? prop f "url" ?? VUndef);
     ("contentType", prop f "contentType" ?? prop f "mimeType" ?? VUndef);
     ("metadata", prop f "metadata" ?? VUndef)]).
  { destruct f; simpl in H; try discriminate; injection H as <-; reflexivity. }
  clear H. subst o. split; [reflexivity|]. split; [|split].
  - intros k. cbn [get].
    repeat match goal with
           | |- context [(?x =? k)%string] => destruct (x =? k)%string
           end;
      cbv beta iota;
      first [ discriminate
            | apply coalesce_undef_not_null
            | apply coalesce_not_null, coalesce_undef_not_null
            | apply coalesce_not_null, coalesce_not_null, coalesce_undef_not_null
            | idtac ].
    + destruct (is_number (prop f "fileSizeRaw")) eqn:E1;
        [apply is_number_not_null, E1|].
      destruct (is_number (prop f "size")) eqn:E2;
        [apply is_number_not_null, E2|discriminate].
    + apply coalesce_not_null.
      destruct (is_number (prop f "fileSizeRaw")); discriminate.
  - cbn [get]. cbv [String.eqb Ascii.eqb Bool.eqb].
    destruct (is_number (prop f "fileSizeRaw")) eqn:E1; [right; exact E1|].
    destruct (is_number (prop f "size")) eqn:E2; [right; exact E2|left; reflexivity].
  - intros Hn. cbn [get]. cbv [String.eqb Ascii.eqb Bool.eqb].
    destruct (prop f "fileSize"); try discriminate;
      destruct (is_number (prop f "fileSizeRaw")); reflexivity.
Qed.

Lemma map_outcome_Done_length {A B} (f : A -> outcome B) (l : list A) (bs : list B) :
  map_outcome f l = Done bs ->
  List.length bs = List.length l /\
  forall n a, nth_error l n = Some a ->
              exists b, nth_error bs n = Some b /\ f a = Done b.
Proof.
  revert bs. induction l as [|a l IH]; simpl; intros bs H.
  - injection H as <-. split; [reflexivity|]. intros [|n] a0; discriminate.
  - destruct (f a) as [b| |] eqn:Ea; simpl in H; try discriminate.
    destruct (map_outcome f l) as [bs'| |] eqn:El; simpl in H; try discriminate.
    injection H as <-. destruct (IH bs' eq_refl) as [Hlen Hnth]. split.
    + simpl. rewrite Hlen. reflexivity.
    + intros [|n] a0 Hn; simpl in *.
      * injection Hn as <-. exists b. split; [reflexivity|exact Ea].
      * apply Hnth, Hn.
Qed.

Lemma map_stored_total (l : list value) :
  (forall x, In x l -> x <> VNull /\ x <> VUndef) ->
  exists fs, map_outcome mapFileInfoToStoredFile l = Done fs.
Proof.
  induction l as [|a l IH]; intros H; simpl; [eexists; reflexivity|].
  destruct IH as [fs Hfs]; [intros x Hx; apply H; right; exact Hx|].
  rewrite Hfs. destruct (H a (or_introl eq_refl)) as [Hn Hu].
  destruct a; try contradiction; simpl; eexists; reflexivity.
Qed.

Lemma map_stored_null (l : list value) (fs : list obj) :
  map_outcome mapFileInfoToStoredFile l = Done fs ->
  forall x, In x l -> x <> VNull /\ x <> VUndef.
Proof.
  revert fs. induction l as [|a l IH]; simpl; intros fs H x []; subst.
  - destruct x; simpl in H; try discriminate; split; discriminate.
  - destruct (mapFileInfoToStoredFile a); simpl in H; try discriminate.
    destruct (map_outcome mapFileInfoToStoredFile l) eqn:El; simpl in H;
      try discriminate.
    eapply IH; [reflexivity|assumption].
Qed.

(** X19: when the file-info response is a JSON object whose [data] is an
    array, the stored file list has one file per record, in the records'
    order, and it exists exactly when no record is [null]; a [null] record
    makes the whole file list fail. *)
Theorem stored_files_per_record (w : world) (id : value) (o : obj) (l : list value) :
  ok (file_info_resp w id) = true ->
  body (file_info_resp w id) = Some (VObj o) ->
  get o "data" = VArr l ->
  ((exists fs, stored_files w id = Done fs) <->
   (forall x, In x l -> x <> VNull /\ x <> VUndef)) /\
  (forall fs, stored_files w id = Done fs ->
     List.length fs = List.length l /\
     forall n x, nth_error l n = Some x ->
       exists f, nth_error fs n = Some f /\ mapFileInfoToStoredFile x = Done f).
Proof.
  intros Hok Hbody Hdata.
  assert (Hf : fetchFileInfo w id = Done l).
  { unfold fetchFileInfo. rewrite Hok, Hbody. simpl. rewrite Hdata. reflexivity. }
  unfold stored_files. rewrite Hf. simpl. split.
  - split.
    + intros [fs Hfs]. exact (map_stored_null l fs Hfs).
    + apply map_stored_total.
  - intros fs Hfs. exact (map_outcome_Done_length _ l fs Hfs).
Qed.

(** X20: a file-info response that is a JSON object with neither a [data]
    nor a [files] array gives an empty file list, not an error; an array
    under [files] is used only while [data] is [null] or absent. *)
Theorem fetchFileInfo_shapes (w : world) (id : value) (o : obj) :
  ok (file_info_resp w id) = true ->
  body (file_info_resp w id) = Some (VObj o) ->
  (forall l, get o "data" = VArr l -> fetchFileInfo w id = Done l) /\
  (forall l, nullish (get o "data") = true -> get o "files" = VArr l ->
             fetchFileInfo w id = Done l) /\
  ((forall l, get o "data" <> VArr l) ->
   (nullish (get o "data") = true -> forall l, get o "files" <> VArr l) ->
   fetchFileInfo w id = Done []).
Proof.
  intros Hok Hbody. unfold fetchFileInfo. rewrite Hok, Hbody. simpl.
  split; [|split].
  - intros l ->. reflexivity.
  - intros l Hn ->. destruct (get o "data"); try discriminate; reflexivity.
  - intros Hd Hf.
    destruct (get o "data") eqn:Ed; simpl; try reflexivity;
      try (destruct (get o "files") eqn:Ef; simpl; try reflexivity;
           exfalso; eapply (Hf eq_refl); reflexivity).
    exfalso. eapply Hd. reflexivity.
Qed.

(* ------------------------------------------------------------------ *)
(** ** The renderer's escaping *)

Lemma string_mem_app (c : ascii) (s t : string) :
  string_mem c (s ++ t) = string_mem c s || string_mem c t.
Proof.
  induction s as [|a s IH]; simpl; [reflexivity|].
  rewrite IH. apply orb_assoc.
Qed.

Lemma html_entity_cases (c : ascii) :
  (c = "&"%char /\ html_entity c = "&amp;") \/
  (c = "<"%char /\ html_entity c = "&lt;") \/
  (c = ">"%char /\ html_entity c = "&gt;") \/
  (c = double_quote /\ html_entity c = "&quot;") \/
  (c <> "&"%char /\ c <> "<"%char /\ c <> ">"%char /\ c <> double_quote /\
   html_entity c = String c "").
Proof.
  unfold html_entity.
  destruct (Ascii.eqb_spec c "&"); [auto|].
  destruct (Ascii.eqb_spec c "<"); [auto|].
  destruct (Ascii.eqb_spec c ">"); [auto 6|].
  destruct (Ascii.eqb_spec c double_quote); [auto 6|].
  auto 10.
Qed.

Lemma replace_chars_id (f : ascii -> string) (s : string) :
  (forall c, string_mem c s = true -> f c = String c "") ->
  replace_chars f s = s.
Proof.
  induction s as [|a s IH]; cbn [replace_chars]; intros H; [reflexivity|].
  rewrite (H a) by (simpl; rewrite Ascii.eqb_refl; reflexivity).
  simpl. f_equal. apply IH. intros c Hc. apply H.
  simpl. rewrite Hc. apply orb_true_r.
Qed.

Lemma html_entities_injective (s1 s2 : string) :
  replace_chars html_entity s1 = replace_chars html_entity s2 -> s1 = s2.
Proof.
  revert s2. induction s1 as [|a s1 IH]; intros [|b s2]; cbn [replace_chars]; intros H.
  - reflexivity.
  - exfalso.
    destruct (html_entity_cases b) as [[_ E]|[[_ E]|[[_ E]|[[_ E]|(_ & _ & _ & _ & E)]]]];
      rewrite E in H; discriminate.
  - exfalso.
    destruct (html_entity_cases a) as [[_ E]|[[_ E]|[[_ E]|[[_ E]|(_ & _ & _ & _ & E)]]]];
      rewrite E in H; discriminate.
  - destruct (html_entity_cases a)
      as [[-> Ea]|[[-> Ea]|[[-> Ea]|[[-> Ea]|(Ha1 & Ha2 & Ha3 & Ha4 & Ea)]]]];
    destruct (html_entity_cases b)
      as [[-> Eb]|[[-> Eb]|[[-> Eb]|[[-> Eb]|(Hb1 & Hb2 & Hb3 & Hb4 & Eb)]]]];
    rewrite ?Ea, ?Eb in H; simpl in H;
      try discriminate;
      try (injection H as H; f_equal; apply IH, H);
      try (injection H as Hc H; congruence).
    injection H as Hc H. subst b. f_equal. apply IH, H.
Qed.

(** X21: the text [escapeHtml] returns holds no [<], [>] or double quote,
    whatever the input; different texts are escaped to different texts; a
    text with none of [&], [<], [>] and the double quote comes back
    unchanged. *)
Theorem escapeHtml_safe (s : value) :
  (forall c, In c ["<"%char; ">"%char; double_quote] ->
             string_mem c (escapeHtml s) = false) /\
  (forall t, escapeHtml s = escapeHtml t -> to_string s = to_string t) /\
  ((forall c, In c ["&"%char; "<"%char; ">"%char; double_quote] ->
              string_mem c (to_string s) = false) ->
   escapeHtml s = to_string s).
Proof.
  unfold escapeHtml. split; [|split].
  - intros c Hc. induction (to_string s) as [|a r IH]; cbn [replace_chars];
      [reflexivity|].
    rewrite string_mem_app, IH, orb_false_r.
    destruct (html_entity_cases a)
      as [[-> E]|[[-> E]|[[-> E]|[[-> E]|(H1 & H2 & H3 & H4 & E)]]]];
      rewrite E;
      destruct Hc as [<-|[<-|[<-|[]]]]; try reflexivity;
      simpl; rewrite orb_false_r; apply Ascii.eqb_neq; assumption.
  - intros t. apply html_entities_injective.
  - intros H. apply replace_chars_id. intros c Hc.
    destruct (html_entity_cases c)
      as [[-> E]|[[-> E]|[[-> E]|[[-> E]|(_ & _ & _ & _ & E)]]]];
      try exact E;
      rewrite H in Hc by (simpl; auto); discriminate.
Qed.

(** X22: the text [escapeAttr] returns holds no double quote, and a text
    without one comes back unchanged, its [&], [<] and [>] included; unlike
    [escapeHtml] it can map two different texts to the same one. *)
Theorem escapeAttr_quotes_only (s : value) :
  string_mem double_quote (escapeAttr s) = false /\
  (string_mem double_quote (to_string s) = false -> escapeAttr s = to_string s) /\
  (exists a b, a <> b /\ escapeAttr (VStr a) = escapeAttr (VStr b)).
Proof.
  unfold escapeAttr. split; [|split].
  - induction (to_string s) as [|a r IH]; cbn [replace_chars]; [reflexivity|].
    rewrite string_mem_app, IH, orb_false_r. unfold attr_entity.
    destruct (Ascii.eqb_spec a double_quote) as [->|Hne]; [reflexivity|].
    simpl. rewrite orb_false_r. apply Ascii.eqb_neq. exact Hne.
  - intros H. apply replace_chars_id. intros c Hc. unfold attr_entity.
    destruct (Ascii.eqb_spec c double_quote) as [->|_]; [|reflexivity].
    rewrite H in Hc. discriminate.
  - exists (String double_quote ""), "&quot;". split; [discriminate|reflexivity].
Qed.

(* ------------------------------------------------------------------ *)
(** ** Video files first *)

Lemma sort_insert_video (x : obj) (l : list obj) :
  isVideo x = true ->
  sort_insert (fun a b => Some (Z.b2z (isVideo b) - Z.b2z (isVideo a))) x l = x :: l.
Proof.
  intros Hx. destruct l as [|y l]; [reflexivity|]. simpl. rewrite Hx.
  destruct (isVideo y); reflexivity.
Qed.

Lemma sort_insert_other (x : obj) (V N : list obj) :
  isVideo x = false ->
  Forall (fun f => isVideo f = true) V ->
  Forall (fun f => isVideo f = false) N ->
  sort_insert (fun a b => Some (Z.b2z (isVideo b) - Z.b2z (isVideo a))) x (V ++ N)
  = (V ++ x :: N)%list.
Proof.
  intros Hx HV HN. induction HV as [|y V Hy HV IH]; simpl.
  - destruct N as [|y N]; [reflexivity|]. simpl.
    inversion HN; subst. rewrite Hx. replace (isVideo y) with false by auto.
    reflexivity.
  - rewrite Hx, Hy. simpl. rewrite IH. reflexivity.
Qed.

(** X23: the renderer's file order is the files that look like videos, in
    their stored order, followed by all the others in their stored order. *)
Theorem video_first_partition (files : list obj) :
  video_first files =
    (filter isVideo files ++ filter (fun f => negb (isVideo f)) files)%list.
Proof.
  unfold video_first. induction files as [|x files IH]; [reflexivity|].
  simpl. rewrite IH. destruct (isVideo x) eqn:Hx; simpl.
  - apply sort_insert_video, Hx.
  - apply sort_insert_other; [exact Hx| |].
    + apply Forall_forall. intros f Hf. apply filter_In in Hf. tauto.
    + apply Forall_forall. intros f Hf. apply filter_In in Hf.
      destruct Hf as [_ Hf]. apply negb_true_iff in Hf. exact Hf.
Qed.

(* ------------------------------------------------------------------ *)
(** ** What counts as a video name *)

Lemma strip_prefix_ci_iff (p s rest : string) :
  strip_prefix_ci p s = Some rest <->
  exists e, s = e ++ rest /\ lower e = lower p.
Proof.
  revert s. induction p as [|a p IH]; intros s; simpl.
  - split.
    + intros [= <-]. exists "". split; reflexivity.
    + intros ([|c e] & -> & He); [reflexivity|discriminate].
  - destruct s as [|b s].
    + split; [discriminate|].
      intros ([|c e] & Hs & He); simpl in *; discriminate.
    + destruct (Ascii.eqb_spec (to_lower a) (to_lower b)) as [Hab|Hab].
      * rewrite IH. split.
        -- intros (e & -> & He). exists (String b e). split; [reflexivity|].
           simpl. rewrite He, Hab. reflexivity.
        -- intros ([|c e] & Hs & He); simpl in *; [discriminate|].
           injection Hs as <- ->. injection He as _ He.
           exists e. split; [reflexivity|exact He].
      * split; [discriminate|].
        intros ([|c e] & Hs & He); simpl in *; [discriminate|].
        injection Hs as <- ->. injection He as Hc _. congruence.
Qed.

Lemma video_extensions_lower (ext : string) :
  In ext video_extensions -> lower ext = ext.
Proof.
  intros H. repeat (destruct H as [<-|H]; [reflexivity|]). destruct H.
Qed.

Lemma extension_here_iff (s : string) :
  extension_here s = true <->
  exists e rest, s = "." ++ e ++ rest /\ In (lower e) video_extensions /\
                 word_ends rest = true.
Proof.
  destruct s as [|c s]; unfold extension_here.
  - split; [discriminate|]. intros (e & rest & H & _). discriminate.
  - rewrite andb_true_iff, existsb_exists. split.
    + intros [Hc (ext & Hext & Hm)].
      apply Ascii.eqb_eq in Hc. subst c.
      destruct (strip_prefix_ci ext s) as [rest|] eqn:Es; [|discriminate].
      apply strip_prefix_ci_iff in Es as (e & -> & He).
      exists e, rest. split; [reflexivity|]. split.
      * rewrite He, (video_extensions_lower _ Hext). exact Hext.
      * destruct rest; [reflexivity|exact Hm].
    + intros (e & rest & Hs & Hin & Hw). injection Hs as -> ->.
      split; [reflexivity|]. exists (lower e). split; [exact Hin|].
      assert (Es : strip_prefix_ci (lower e) (e ++ rest) = Some rest).
      { apply strip_prefix_ci_iff. exists e. split; [reflexivity|].
        symmetry. apply video_extensions_lower, Hin. }
      rewrite Es. destruct rest; [reflexivity|exact Hw].
Qed.

Lemma video_name_iff (s : string) :
  video_name s = true <->
  exists pre e rest, s = pre ++ "." ++ e ++ rest /\
                     In (lower e) video_extensions /\ word_ends rest = true.
Proof.
  induction s as [|c s IH].
  - simpl. split; [discriminate|].
    intros ([|? ?] & e & rest & H & _); discriminate.
  - change (video_name (String c s))
      with (extension_here (String c s) || video_name s).
    rewrite orb_true_iff, extension_here_iff, IH. split.
    + intros [(e & rest & H)|(pre & e & rest & -> & H)].
      * exists "", e, rest. exact H.
      * exists (String c pre), e, rest. split; [reflexivity|exact H].
    + intros ([|c' pre] & e & rest & Hs & H).
      * left. exists e, rest. split; [exact Hs|exact H].
      * right. injection Hs as <- ->. exists pre, e, rest.
        split; [reflexivity|exact H].
Qed.

(** X24: a file counts as a video exactly when the text tested, its
    [fileName] or else its [downloadUrl] or else the empty text, holds
    somewhere a dot, then one of mp4, mkv, m3u8, mov, ts, webm in any
    letter case, then the end of the text or a character that is no
    letter, digit or underscore. *)
Theorem isVideo_iff (f : obj) :
  isVideo f = true <->
  exists pre e rest,
    to_string (logical_or (get f "fileName")
                 (logical_or (get f "downloadUrl") (VStr "")))
      = pre ++ "." ++ e ++ rest /\
    In (lower e) ["mp4"; "mkv"; "m3u8"; "mov"; "ts"; "webm"] /\
    word_ends rest = true.
Proof. unfold isVideo. apply video_name_iff. Qed.

(* ------------------------------------------------------------------ *)
(** ** Login and completion *)

(** X25: [login] returns exactly when the response is OK and its body is a
    JSON value, not [null], whose [error] is falsy and whose [data] is
    truthy; what it returns is that [data].  A body that is no JSON counts
    as an empty object and so fails with a missing [data]. *)
Theorem login_succeeds_iff (cfg : config) (w : world) (d : value) :
  (login cfg w = Done d <->
   ok (login_resp w) = true /\
   exists j, body (login_resp w) = Some j /\ j <> VNull /\ j <> VUndef /\
             truthy (prop j "error") = false /\
             prop j "data" = d /\ truthy d = true) /\
  (ok (login_resp w) = true -> body (login_resp w) = None ->
   login cfg w = Throw "Login: missing data").
Proof.
  unfold login. split.
  - split.
    + destruct (ok (login_resp w)); simpl; [|discriminate].
      destruct (body (login_resp w)) as [j|]; [|simpl; discriminate].
      intros H. split; [reflexivity|]. exists j.
      destruct j; simpl in H; try discriminate;
        match type of H with
        | context [strict_eq_prim ?e _ && _] =>
            destruct (strict_eq_prim e (VStr "TOTP_REQUIRED") && negb (TOTP_set cfg));
              [discriminate|];
            destruct (truthy e) eqn:Ee; [discriminate|]
        end;
        match type of H with
        | context [truthy ?x] =>
            destruct (truthy x) eqn:Ed; simpl in H; [|discriminate]
        end;
        injection H as <-;
        (split; [reflexivity|]); repeat split; try discriminate; assumption.
    + intros [Hok (j & Hbody & Hn & Hu & He & <- & Hd)].
      rewrite Hok, Hbody. simpl.
      assert (Hm : forall k, member j k = Done (prop j k))
        by (intros k; destruct j; try reflexivity; contradiction).
      rewrite !Hm. simpl. rewrite He.
      assert (Hs : strict_eq_prim (prop j "error") (VStr "TOTP_REQUIRED") = false).
      { destruct (prop j "error") as [| |[]| |e| |]; try reflexivity.
        destruct e; [reflexivity|discriminate]. }
      rewrite Hs. simpl. rewrite Hd. reflexivity.
  - intros -> ->. simpl. destruct (TOTP_set cfg); reflexivity.
Qed.

Lemma push_normalized_total (items : list value) (all : list obj) :
  (forall x, In x items -> x <> VNull /\ x <> VUndef) ->
  exists all', foldM push_normalized items all = Done all'.
Proof.
  revert all. induction items as [|x items IH]; intros all H; simpl.
  - eexists. reflexivity.
  - destruct (H x (or_introl eq_refl)) as [Hn Hu].
    assert (Hx : exists r, push_normalized all x = Done r).
    { unfold push_normalized, normalizeVod.
      assert (Hm : member x "ID" = Done (prop x "ID"))
        by (destruct x; try reflexivity; contradiction).
      rewrite Hm. simpl. destruct (truthy (prop x "ID")); simpl; eexists; reflexivity. }
    destruct Hx as [r ->]. simpl. apply IH. intros y Hy. apply H. right. exact Hy.
Qed.




(* ------------------------------------------------------------------ *)
(** ** The page loop against a server that always sends a full page *)

Lemma full_page_still_looping (w : world) (limit : option Z) (tu : value)
    (j : value) (items : list value) :
  same_listing_each_page w tu ->
  ok (list_resp w 1 tu) = true ->
  body (list_resp w 1 tu) = Some j ->
  prop j "data" = VArr items ->
  items <> [] ->
  (forall x, In x items -> x <> VNull /\ x <> VUndef) ->
  below_limit (List.length items) limit = false ->
  forall fuel page acc, fetchAllPages w limit tu fuel page acc = Looping.
Proof.
  intros Hsame Hok Hbody Hdata Hne Hrec Hfull.
  induction fuel as [|fuel IH]; intros page acc; [reflexivity|].
  cbn [fetchAllPages]. unfold fetchVodPage.
  rewrite (Hsame page), Hok, Hbody. cbn [negb bind].
  assert (Hm : member j "data" = Done (VArr items)).
  { unfold member. rewrite <- Hdata. destruct j; try reflexivity; discriminate. }
  rewrite Hm. cbn [bind].
  destruct (push_normalized_total items acc Hrec) as [acc' Hacc].
  destruct items as [|item items]; [contradiction|].
  rewrite Hacc. cbn [bind]. rewrite Hfull. apply IH.
Qed.

(** X4: when the warm-up and the login succeed and the server answers
    every listing request alike (the page number is never sent) with a
    non-empty list of records, none of them [null], that is not shorter than
    [PAGE_LIMIT] (or [PAGE_LIMIT] is not a number), the run never leaves the
    page loop: whatever the bound on the iterations, it is still looping,
    having neither completed nor failed. *)
Theorem full_page_loop_never_ends (cfg : config) (w : world) (user j : value)
    (items : list value) :
  ok (warmup_resp w) = true ->
  login cfg w = Done user ->
  same_listing_each_page w (prop user "username") ->
  ok (list_resp w 1 (prop user "username")) = true ->
  body (list_resp w 1 (prop user "username")) = Some j ->
  prop j "data" = VArr items ->
  items <> [] ->
  (forall x, In x items -> x <> VNull /\ x <> VUndef) ->
  below_limit (List.length items) (PAGE_LIMIT cfg) = false ->
  forall fuel, main cfg w fuel = Looping.
Proof.
  intros Hw Hlogin Hsame Hok Hbody Hdata Hne Hrec Hfull fuel.
  unfold main, warmup. rewrite Hw. cbn [negb bind]. rewrite Hlogin. cbn [bind].
  rewrite (full_page_still_looping w _ _ j items Hsame Hok Hbody Hdata Hne
             Hrec Hfull).
  reflexivity.
Qed.

(* ------------------------------------------------------------------ *)
(** ** Instances *)

Lemma full_page_loop_never_ends_witness :
  main cfg_limit4 w_mixed 50 = Looping.
Proof.
  refine (full_page_loop_never_ends cfg_limit4 w_mixed _ _ listing_1234
            eq_refl eq_refl _ eq_refl eq_refl eq_refl _ _ eq_refl 50%nat).
  - intros page. reflexivity.
  - discriminate.
  - intros x H; simpl in H.
    repeat (destruct H as [<-|H]; [split; discriminate|]). destruct H.
Defined.

Lemma one_listing_request_witness :
  filter is_list_request (run_trace (main cfg_plain w_mixed 2))
  = [ReqList (VStr "bob")].
Proof.
  refine (one_listing_request cfg_plain w_mixed 2 _ _ _ eq_refl eq_refl _).
  intros page. reflexivity.
Defined.

Lemma failed_file_info_aborts_witness :
  main cfg_plain w_file_info_down 2 <> Done (empty_store, []).
Proof.
  refine (failed_file_info_aborts cfg_plain w_file_info_down 2 _ all_1234 1
            (normalized_entry "2" "two" VUndef) eq_refl eq_refl _ eq_refl _
            (empty_store, [])).
  - simpl. auto.
  - intros fs. discriminate.
Defined.

Lemma fetched_entry_saved_with_files_witness :
  exists e fs n m,
    In e (vods (saved_store (main cfg_plain w_mixed 2))) /\
    vod_id e = VStr "2" /\
    stored_files w_mixed (VStr "2") = Done fs /\
    get e "files" = VArr (map VObj fs) /\
    get e "filesFetchedAt" = VStr (clock w_mixed n) /\
    generatedAt (meta (saved_store (main cfg_plain w_mixed 2))) = clock w_mixed m /\
    (n < m)%nat.
Proof.
  refine (fetched_entry_saved_with_files cfg_plain w_mixed 2 _ _ (VStr "2")
            eq_refl _ eq_refl).
  simpl. auto.
Defined.

Lemma file_info_requests_in_listing_order_witness :
  file_info_ids (run_trace (main cfg_plain w_mixed 2))
  = filter (must_fetch (stored w_mixed)) (map vod_id all_1234).
Proof.
  refine (file_info_requests_in_listing_order cfg_plain w_mixed 2 _ _ _
            all_1234 1 eq_refl eq_refl eq_refl _).
  simpl. repeat split; intros k' H; simpl in H;
    repeat (destruct H as [<-|H]; [reflexivity|]); destruct H.
Defined.

Lemma saved_ids_prior_or_listed_witness :
  In (vod_id (nth 0 (run_vods (main cfg_plain w_mixed 2)) []))
     (map vod_id (existing_vods (stored w_mixed))) \/
  In (vod_id (nth 0 (run_vods (main cfg_plain w_mixed 2)) []))
     (map vod_id all_1234).
Proof.
  refine (saved_ids_prior_or_listed cfg_plain w_mixed 2 _ _ _ all_1234 1
            eq_refl eq_refl eq_refl _ _).
  simpl. auto.
Defined.

Lemma listed_entry_saved_with_listing_fields_witness :
  exists e, In e (run_vods (main cfg_plain w_mixed 2)) /\
            vod_id e = VStr "4" /\
            forall k, In k listing_keys ->
                      get e k = get (normalized_entry "4" "four" (VNum 50)) k.
Proof.
  refine (listed_entry_saved_with_listing_fields cfg_plain w_mixed 2 _ _ _
            all_1234 1 (VStr "4") _ eq_refl eq_refl eq_refl eq_refl).
Defined.

Lemma unlisted_entry_carried_over_witness :
  In old7 (run_vods (main cfg_plain w_unlisted7 2)).
Proof.
  refine (unlisted_entry_carried_over cfg_plain w_unlisted7 2 _ _ _ all_123 1
            old7 eq_refl eq_refl eq_refl _ _ eq_refl _).
  - simpl. repeat constructor; simpl; intuition discriminate.
  - simpl. auto.
  - intros v [<-|[<-|[<-|[]]]]; discriminate.
Defined.

Lemma mergeVodPreservingFiles_reads_witness :
  get (mergeVodPreservingFiles (Some old7) (normalized_entry "7" "Stream" VUndef))
      "files"
  = get old7 "files".
Proof.
  refine (proj1 (proj2 (proj2
            (mergeVodPreservingFiles_reads old7
               (normalized_entry "7" "Stream" VUndef) _ _))));
    simpl; repeat constructor; simpl; intuition discriminate.
Defined.

Lemma stored_file_shape_witness :
  get [("fileId", VUndef); ("fileName", VStr "b.mkv"); ("fileSizeRaw", VNum 7);
       ("fileSize", VUndef); ("downloadUrl", VUndef); ("contentType", VUndef);
       ("metadata", VUndef)] "fileSize" = VUndef.
Proof.
  exact (proj2 (proj2 (proj2 (stored_file_shape file_size_only _ eq_refl))) eq_refl).
Defined.

Lemma stored_files_per_record_witness :
  (exists fs, stored_files w_mixed (VStr "1") = Done fs) <->
  (forall x, In x [one_file] -> x <> VNull /\ x <> VUndef).
Proof.
  exact (proj1 (stored_files_per_record w_mixed (VStr "1") _ [one_file]
                  eq_refl eq_refl eq_refl)).
Defined.

Lemma fetchFileInfo_shapes_witness :
  fetchFileInfo w_mixed (VStr "1") = Done [one_file].
Proof.
  exact (proj1 (fetchFileInfo_shapes w_mixed (VStr "1") _ eq_refl eq_refl)
           [one_file] eq_refl).
Defined.

Lemma resolveVodIdForFileInfo_first_truthy_witness :
  exists before k after,
    ["id"; "vod_id"; "twitch_id"; "vodId"] = (before ++ k :: after)%list /\
    (forall k', In k' before ->
                truthy (get [("id", VNum 0); ("twitch_id", VNum 31)] k') = false) /\
    truthy (get [("id", VNum 0); ("twitch_id", VNum 31)] k) = true /\
    "31" = to_string (get [("id", VNum 0); ("twitch_id", VNum 31)] k).
Proof.
  exact (proj2 (resolveVodIdForFileInfo_first_truthy
                  [("id", VNum 0); ("twitch_id", VNum 31)]) "31" eq_refl).
Defined.

Lemma escapeHtml_safe_witness :
  escapeHtml (VStr "a.mp4 (12 B)") = "a.mp4 (12 B)".
Proof.
  refine (proj2 (proj2 (escapeHtml_safe (VStr "a.mp4 (12 B)"))) _).
  intros c [<-|[<-|[<-|[<-|[]]]]]; reflexivity.
Defined.

Lemma escapeAttr_quotes_only_witness :
  escapeAttr (VStr "/get?a=1&b=<2>") = "/get?a=1&b=<2>".
Proof.
  exact (proj1 (proj2 (escapeAttr_quotes_only (VStr "/get?a=1&b=<2>"))) eq_refl).
Defined.

